(** * SecPipe: the review pipeline, its task adapters and its store

    A shallow embedding of the orchestration core of SecPipe:
    - [stages/utils.ts], [stages/dependency.ts], [stages/injection.ts],
      [stages/secrets.ts]: the analysis task adapters;
    - [secpipe-agent.ts]: the SQL store of the agent and the operations
      [/update-status], [/store-findings], [/store-remediations],
      [get_findings], [approve_findings], [submit_review];
    - [pipeline-workflow.ts]: [SecurityPipelineWorkflow.run].

    Conventions.  A SQL table with a primary key is a finite map from the
    key to the row.  A TEXT column that is only ever written through
    [JSON.stringify] is represented by the value whose JSON text it holds
    ([None] is SQL NULL).  INTEGER columns are [Z]; the REAL column
    [noise_reduction_percent] is an exact rational ([Qc]).  [Date.now()] is
    an explicit argument [now] of every operation that reads the clock. *)

From Stdlib Require Import Ascii ZArith QArith Qcanon.
From stdpp Require Import base numbers strings pretty gmap sorting list.

Local Open Scope string_scope.
Local Open Scope Z_scope.

(** ** JavaScript values and idioms *)

(** [x || null] and [x || undefined] on an optional string: the empty string
    is falsy, so it is dropped along with [undefined] and [null]. *)
Definition truthy_str (x : option string) : option string :=
  match x with
  | Some s => if decide (s = EmptyString) then None else Some s
  | None => None
  end.

(** [b ? 1 : 0] *)
Definition bool_to_int (b : bool) : Z := if b then 1 else 0.

(** ** Data model ([types.ts], as used by the agent and the workflow) *)

Module Location.
Record t := mk { startLine : Z; endLine : Z; snippet : string }.
End Location.

Module PathNode.
Record t := mk { name : string; type : string; description : string }.
End PathNode.

(** Modelled from the spec: the element type of [sanitizersInPath]
    ([types.ts] is not among the sources); the spec calls it a "sanitizer
    descriptor" and the store only serialises it, so it is kept as text. *)
Definition Sanitizer : Type := string.

Module Reachability.
Record t := mk {
  hasUserInputPath : bool;
  dataFlowPath : option (list PathNode.t);
  sanitizersInPath : option (list Sanitizer);
  falsePositiveReason : option string
}.
End Reachability.

Module Finding.
Record t := mk {
  id : string;
  category : string;
  severity : string;
  title : string;
  description : string;
  location : Location.t;
  cweId : option string;
  owaspCategory : option string;
  isReachable : bool;
  reachabilityAnalysis : Reachability.t
}.
End Finding.

Module Synthesis.
(** [totalRaw] and [noiseReductionPercent] are the fields [/store-findings]
    reads; [totalFiltered] and [summary] follow the spec's description. *)
Record t := mk {
  totalRaw : Z;
  totalFiltered : Z;
  noiseReductionPercent : Qc;
  summary : string
}.
End Synthesis.

Module Remediation.
Record t := mk {
  id : string;
  findingId : string;
  reviewId : string;
  originalCode : string;
  fixedCode : string;
  explanation : string;
  diffHunks : list string;
  createdAt : Z
}.
End Remediation.

Module Triage.
(** The fields of [TriageResult] that the adapters and the workflow read. *)
Record RiskArea := mkRisk { category : string }.
Record DataFlowMap := mkMap {
  sources : list PathNode.t;
  sinks : list PathNode.t;
  sanitizers : list PathNode.t
}.
Record t := mk {
  language : string;
  framework : string;
  codeType : string;
  riskAreas : list RiskArea;
  dataFlowMap : DataFlowMap;
  entryPoints : list string
}.
End Triage.

(** ** The agent's SQL store ([initializeDatabase]) *)

Module ReviewRow.
Record t := mk {
  id : string;
  user_id : string;
  code : string;
  language : string;
  status : string;
  created_at : Z;
  updated_at : Z;
  workflow_instance_id : option string;
  total_findings_raw : Z;
  total_findings_filtered : Z;
  noise_reduction_percent : Qc;
  current_stage : option string;
  error : option string
}.

(** [UPDATE reviews SET status = ?, current_stage = ?, updated_at = ?] *)
Definition set_status (s : string) (stage : option string) (now : Z) (r : t) : t :=
  mk (id r) (user_id r) (code r) (language r) s (created_at r) now
     (workflow_instance_id r) (total_findings_raw r) (total_findings_filtered r)
     (noise_reduction_percent r) stage (error r).

(** [UPDATE reviews SET total_findings_raw = ?, total_findings_filtered = ?,
    noise_reduction_percent = ?, updated_at = ?] *)
Definition set_stats (raw filtered : Z) (pct : Qc) (now : Z) (r : t) : t :=
  mk (id r) (user_id r) (code r) (language r) (status r) (created_at r) now
     (workflow_instance_id r) raw filtered pct (current_stage r) (error r).

(** [UPDATE reviews SET workflow_instance_id = ?, status = 'triaging',
    current_stage = 'triage', updated_at = ?] *)
Definition set_started (instance : string) (now : Z) (r : t) : t :=
  mk (id r) (user_id r) (code r) (language r) "triaging" (created_at r) now
     (Some instance) (total_findings_raw r) (total_findings_filtered r)
     (noise_reduction_percent r) (Some "triage") (error r).

(** The three statistics columns of a review. *)
Definition stats (r : t) : Z * Z * Qc :=
  (total_findings_raw r, total_findings_filtered r, noise_reduction_percent r).
End ReviewRow.

Module FindingRow.
Record t := mk {
  id : string;
  review_id : string;
  category : string;
  severity : string;
  title : string;
  description : string;
  location_start_line : Z;
  location_end_line : Z;
  location_snippet : string;
  cwe_id : option string;
  owasp_category : option string;
  is_reachable : Z;
  has_user_input_path : Z;
  data_flow_path : option (list PathNode.t);
  sanitizers_in_path : option (list Sanitizer);
  false_positive_reason : option string;
  approved : Z;
  approved_at : option Z
}.

(** [UPDATE findings SET approved = 1, approved_at = ?] *)
Definition set_approved (now : Z) (r : t) : t :=
  mk (id r) (review_id r) (category r) (severity r) (title r) (description r)
     (location_start_line r) (location_end_line r) (location_snippet r)
     (cwe_id r) (owasp_category r) (is_reachable r) (has_user_input_path r)
     (data_flow_path r) (sanitizers_in_path r) (false_positive_reason r)
     1 (Some now).
End FindingRow.

Module RemediationRow.
Record t := mk {
  id : string;
  finding_id : string;
  review_id : string;
  original_code : string;
  fixed_code : string;
  explanation : string;
  diff_hunks : list string;
  created_at : Z
}.
End RemediationRow.

Module Agent.

Record DB := mkDB {
  reviews : gmap string ReviewRow.t;
  findings : gmap string FindingRow.t;
  remediations : gmap string RemediationRow.t
}.

Definition empty : DB := mkDB ∅ ∅ ∅.

(** *** [submit_review]: the INSERT of the new review, then the UPDATE that
    records the workflow instance.  The three statistics columns take their
    DEFAULT 0.  An id that is already present violates the primary key and
    the INSERT changes nothing. *)
Definition submit_review (db : DB) (reviewId userId code : string)
    (language : option string) (instance : string) (now1 now2 : Z) : DB :=
  match reviews db !! reviewId with
  | Some _ => db
  | None =>
      let row := ReviewRow.mk reviewId userId code
                   (default "auto" (truthy_str language)) "pending" now1 now1
                   None 0 0 0%Qc None None in
      mkDB (alter (ReviewRow.set_started instance now2) reviewId
              (<[reviewId := row]> (reviews db)))
           (findings db) (remediations db)
  end.

(** *** [/update-status] *)
Definition update_status (db : DB) (reviewId status : string)
    (currentStage : option string) (now : Z) : DB :=
  mkDB (alter (ReviewRow.set_status status (truthy_str currentStage) now)
          reviewId (reviews db))
       (findings db) (remediations db).

(** *** [/store-findings] *)

(** The row that [INSERT OR REPLACE INTO findings (...)] writes for one
    finding; the two columns it does not list take their defaults. *)
Definition finding_row (reviewId : string) (f : Finding.t) : FindingRow.t :=
  let ra := Finding.reachabilityAnalysis f in
  FindingRow.mk
    (Finding.id f) reviewId (Finding.category f) (Finding.severity f)
    (Finding.title f) (Finding.description f)
    (Location.startLine (Finding.location f))
    (Location.endLine (Finding.location f))
    (Location.snippet (Finding.location f))
    (truthy_str (Finding.cweId f))
    (truthy_str (Finding.owaspCategory f))
    (bool_to_int (Finding.isReachable f))
    (bool_to_int (Reachability.hasUserInputPath ra))
    (Some (default [] (Reachability.dataFlowPath ra)))
    (Some (default [] (Reachability.sanitizersInPath ra)))
    (truthy_str (Reachability.falsePositiveReason ra))
    0 None.

(** The [for (const finding of findings)] loop. *)
Definition insert_findings (reviewId : string) (fs : list Finding.t)
    (tbl : gmap string FindingRow.t) : gmap string FindingRow.t :=
  foldl (λ m f, <[Finding.id f := finding_row reviewId f]> m) tbl fs.

(** [findings.filter((f) => f.isReachable).length] *)
Definition reachableCount (fs : list Finding.t) : Z :=
  Z.of_nat (length (filter (λ f, Finding.isReachable f = true) fs)).

Definition store_findings (db : DB) (reviewId : string) (fs : list Finding.t)
    (synthesis : Synthesis.t) (now : Z) : DB :=
  mkDB (alter (ReviewRow.set_stats (Synthesis.totalRaw synthesis)
                 (reachableCount fs)
                 (Synthesis.noiseReductionPercent synthesis) now)
          reviewId (reviews db))
       (insert_findings reviewId fs (findings db))
       (remediations db).

(** *** [/store-remediations] *)
Definition remediation_row (reviewId : string) (r : Remediation.t) : RemediationRow.t :=
  RemediationRow.mk (Remediation.id r) (Remediation.findingId r) reviewId
    (Remediation.originalCode r) (Remediation.fixedCode r)
    (Remediation.explanation r) (Remediation.diffHunks r)
    (Remediation.createdAt r).

Definition store_remediations (db : DB) (reviewId : string)
    (rs : list Remediation.t) : DB :=
  mkDB (reviews db) (findings db)
       (foldl (λ m r, <[Remediation.id r := remediation_row reviewId r]> m)
          (remediations db) rs).

(** *** [approve_findings]: the part that writes the store.  Nothing is
    written when the review does not exist. *)
Definition approve_row (reviewId : string) (now : Z) (row : FindingRow.t) : FindingRow.t :=
  if decide (FindingRow.review_id row = reviewId)
  then FindingRow.set_approved now row else row.

Definition approve_findings (db : DB) (reviewId : string)
    (findingIds : list string) (now : Z) : DB :=
  match reviews db !! reviewId with
  | None => db
  | Some _ =>
      mkDB (reviews db)
           (foldl (λ m i, alter (approve_row reviewId now) i m) (findings db) findingIds)
           (remediations db)
  end.

(** *** [mapFindingFromDb] *)
Definition mapFindingFromDb (f : FindingRow.t) : Finding.t :=
  Finding.mk
    (FindingRow.id f) (FindingRow.category f) (FindingRow.severity f)
    (FindingRow.title f) (FindingRow.description f)
    (Location.mk (FindingRow.location_start_line f)
       (FindingRow.location_end_line f) (FindingRow.location_snippet f))
    (truthy_str (FindingRow.cwe_id f))
    (truthy_str (FindingRow.owasp_category f))
    (bool_decide (FindingRow.is_reachable f = 1))
    (Reachability.mk
       (bool_decide (FindingRow.has_user_input_path f = 1))
       (Some (default [] (FindingRow.data_flow_path f)))
       (Some (default [] (FindingRow.sanitizers_in_path f)))
       (truthy_str (FindingRow.false_positive_reason f))).

(** *** [get_findings] *)

(** [CASE severity WHEN 'critical' THEN 1 ... ELSE 5 END] *)
Definition severity_rank (severity : string) : nat :=
  if decide (severity = "critical") then 1%nat
  else if decide (severity = "high") then 2%nat
  else if decide (severity = "medium") then 3%nat
  else if decide (severity = "low") then 4%nat
  else 5%nat.

(** The order the ORDER BY clause asks for, on rows. *)
Definition by_severity (a b : FindingRow.t) : Prop :=
  (severity_rank (FindingRow.severity a) ≤ severity_rank (FindingRow.severity b))%nat.

#[global] Instance by_severity_dec : RelDecision by_severity.
Proof. intros a b. unfold by_severity. apply _. Defined.

(** [WHERE review_id = ?] or [WHERE review_id = ? AND is_reachable = 1] *)
Definition where_clause (reviewId : string) (includeFiltered : bool)
    (row : FindingRow.t) : Prop :=
  FindingRow.review_id row = reviewId ∧
  (includeFiltered = true ∨ FindingRow.is_reachable row = 1).

#[global] Instance where_clause_dec reviewId includeFiltered row :
  Decision (where_clause reviewId includeFiltered row).
Proof. unfold where_clause. apply _. Defined.

(** The SELECT: the rows of the table that satisfy the WHERE clause, sorted
    by the ORDER BY key.  SQL leaves the order among equal keys open; the
    sort used here is one admissible choice. *)
Definition select_findings (db : DB) (reviewId : string) (includeFiltered : bool)
    : list FindingRow.t :=
  merge_sort by_severity
    (filter (where_clause reviewId includeFiltered) (map_to_list (findings db)).*2).

Record Stats := mkStats {
  rawFindings : Z;
  exploitableFindings : Z;
  noiseReductionPercent : Qc
}.

Record FindingsResponse := mkResponse {
  resp_reviewId : string;
  resp_stats : option Stats;
  findingsCount : nat;
  resp_findings : list Finding.t
}.

(** The tool handler.  [includeFiltered] is optional in [GetFindingsSchema]
    and defaults to [false]. *)
Definition get_findings (db : DB) (reviewId : string)
    (includeFiltered : option bool) : FindingsResponse :=
  let rows := select_findings db reviewId (default false includeFiltered) in
  mkResponse reviewId
    ((λ r, mkStats (ReviewRow.total_findings_raw r)
             (ReviewRow.total_findings_filtered r)
             (ReviewRow.noise_reduction_percent r)) <$> reviews db !! reviewId)
    (length rows)
    (mapFindingFromDb <$> rows).

End Agent.

(** ** The analysis task adapters ([stages/*.ts]) *)

Set Warnings "-register-all".

(** What [JSON.parse] returns. *)
Inductive json :=
  | JNull
  | JBool (b : bool)
  | JNum (q : Qc)
  | JStr (s : string)
  | JArr (items : list json)
  | JObj (fields : list (string * json)).

Inductive exn :=
  | Error (msg : string)
  | TypeError (msg : string).

Inductive result (A : Type) :=
  | Ok (a : A)
  | Throw (e : exn).
Arguments Ok {A} a.
Arguments Throw {A} e.

(** The primitives of the JavaScript runtime that [parseJsonResponse] calls:
    [String.prototype.trim], the first capture group of each of its two
    regular expressions, and [JSON.parse] ([None] when it throws). *)
Class JsRuntime := {
  trim : string → string;
  match_fence : string → option string;
  match_json : string → option string;
  JSON_parse : string → option json
}.

Module Stages.

(** A function that can throw and that writes to [console.error]. *)
Definition logged (A : Type) : Type := result A * list string.

(** JavaScript truthiness of a JSON value. *)
Definition truthy (v : json) : bool :=
  match v with
  | JNull => false
  | JBool b => b
  | JNum q => negb (bool_decide (q = 0%Qc))
  | JStr s => negb (bool_decide (s = EmptyString))
  | JArr _ | JObj _ => true
  end.

(** The value of the last field named [key]: a later property of an object
    literal overrides an earlier one with the same name. *)
Fixpoint field (key : string) (fs : list (string * json)) : option json :=
  match fs with
  | [] => None
  | (k, v) :: rest =>
      match field key rest with
      | Some w => Some w
      | None => if decide (k = key) then Some v else None
      end
  end.

(** [v.key] for a key that is no built-in property of strings and arrays
    ([id], [category]); [None] is [undefined]. *)
Definition get (v : json) (key : string) : result (option json) :=
  match v with
  | JNull => Throw (TypeError "Cannot read properties of null")
  | JObj fs => Ok (field key fs)
  | _ => Ok None
  end.

(** [a || b] where [a] may be [undefined]. *)
Definition or_else (a : option json) (b : json) : json :=
  match a with
  | Some v => if truthy v then v else b
  | None => b
  end.

(** The own enumerable properties that [{...v}] copies. *)
Definition spread (v : json) : list (string * json) :=
  match v with
  | JObj fs => fs
  | JArr items => imap (λ i x, (pretty i, x)) items
  | JStr s => imap (λ i c, (pretty i, JStr (String c EmptyString))) (String.list_ascii_of_string s)
  | _ => []
  end.

(** [Array.prototype.map] with a callback that can throw. *)
Fixpoint js_map (f : nat → json → result json) (index : nat) (l : list json)
    : result (list json) :=
  match l with
  | [] => Ok []
  | x :: rest =>
      match f index x with
      | Throw e => Throw e
      | Ok y =>
          match js_map f (S index) rest with
          | Throw e => Throw e
          | Ok ys => Ok (y :: ys)
          end
      end
  end.

(** [generateId]: [timestamp] is [Date.now().toString(36)] and [random] is
    [Math.random().toString(36).substring(2, 8)]. *)
Definition generateId (prefix timestamp random : string) : string :=
  if decide (prefix = EmptyString) then timestamp +:+ "-" +:+ random
  else prefix +:+ "-" +:+ timestamp +:+ "-" +:+ random.

(** The clock reading and the random suffix that [generateId] obtains when it
    is called for the finding at a given index. *)
Definition Entropy : Type := nat → string * string.

Definition freshId (ent : Entropy) (task : string) (index : nat) : string :=
  generateId (task +:+ "-" +:+ pretty index) (ent index).1 (ent index).2.

(** The property [key] of a finding that an adapter returns. *)
Definition prop (key : string) (v : json) : option json :=
  match v with
  | JObj fs => field key fs
  | _ => None
  end.

(** The findings that a call of an adapter returned, if it returned. *)
Definition returned (r : result (list json) * list string) : list json :=
  match r.1 with
  | Ok findings => findings
  | Throw _ => []
  end.

(** No character of the string is a dash. *)
Fixpoint dashless (s : string) : Prop :=
  match s with
  | EmptyString => True
  | String c rest => c ≠ "-"%char ∧ dashless rest
  end.

Section with_runtime.
Context `{JsRuntime}.

Definition parseJsonResponse (response : string) : logged json :=
  let jsonStr := trim response in
  let jsonStr :=
    match match_fence jsonStr with Some g => trim g | None => jsonStr end in
  let jsonStr :=
    match match_json jsonStr with Some g => g | None => jsonStr end in
  match JSON_parse jsonStr with
  | Some v => (Ok v, [])
  | None => (Throw (Error "Failed to parse AI response as JSON"),
             ["Failed to parse JSON response:"])
  end.

(** The content of a response is malformed output when it cannot be parsed
    as JSON or parses to something that is not an array. *)
Definition malformed (response : string) : Prop :=
  match (parseJsonResponse response).1 with
  | Throw _ => True
  | Ok (JArr _) => False
  | Ok _ => True
  end.

(** The items of a response whose content is an array. *)
Definition items_of (response : string) : list json :=
  match (parseJsonResponse response).1 with
  | Ok (JArr items) => items
  | _ => []
  end.

(** *** [runDependencyStage] *)
Definition dependency_finding (ent : Entropy) (index : nat) (finding : json)
    : result json :=
  match get finding "id" with
  | Throw e => Throw e
  | Ok i =>
      Ok (JObj (spread finding ++
                [("id", or_else i (JStr (freshId ent "dep" index)));
                 ("category", JStr "dependency")]))
  end.

Definition runDependencyStage (ai : result string) (ent : Entropy)
    : logged (list json) :=
  match ai with
  | Throw e => (Throw e, [])
  | Ok response =>
      match parseJsonResponse response with
      | (Throw e, log) => (Throw e, log)
      | (Ok (JArr findings), log) => (js_map (dependency_finding ent) 0 findings, log)
      | (Ok JNull, log) => (Throw (TypeError "Cannot read properties of null"), log)
      | (Ok _, log) => (Throw (TypeError "findings.map is not a function"), log)
      end
  end.

(** *** [runSecretsStage] *)
Definition secrets_finding (ent : Entropy) (index : nat) (finding : json)
    : result json :=
  match get finding "id" with
  | Throw e => Throw e
  | Ok i =>
      Ok (JObj (spread finding ++
                [("id", or_else i (JStr (freshId ent "sec" index)));
                 ("category", JStr "secrets")]))
  end.

Definition runSecretsStage (ai : result string) (ent : Entropy)
    : logged (list json) :=
  match ai with
  | Throw e => (Throw e, [])
  | Ok response =>
      let '(parsed, log) := parseJsonResponse response in
      let body :=
        match parsed with
        | Throw e => Throw e
        | Ok (JArr findings) => js_map (secrets_finding ent) 0 findings
        | Ok _ => Ok []
        end in
      match body with
      | Ok findings => (Ok findings, log)
      | Throw _ => (Ok [], (log ++ ["Secrets stage parse error:"])%list)
      end
  end.

(** *** [runInjectionStage] *)
Definition injection_categories : list string :=
  ["injection"; "xss"; "ssrf"; "path_traversal"].

Definition hasInjectionRiskAreas (triage : Triage.t) : bool :=
  existsb (λ area, bool_decide (Triage.category area ∈ injection_categories))
    (Triage.riskAreas triage).

Definition hasSinks (triage : Triage.t) : bool :=
  bool_decide (0 < length (Triage.sinks (Triage.dataFlowMap triage)))%nat.

Definition injection_finding (ent : Entropy) (index : nat) (finding : json)
    : result json :=
  match get finding "id" with
  | Throw e => Throw e
  | Ok i =>
      match get finding "category" with
      | Throw e => Throw e
      | Ok c =>
          Ok (JObj (spread finding ++
                    [("id", or_else i (JStr (freshId ent "inj" index)));
                     ("category", or_else c (JStr "injection"))]))
      end
  end.

Definition runInjectionStage (triage : Triage.t) (ai : result string)
    (ent : Entropy) : logged (list json) :=
  if negb (hasInjectionRiskAreas triage) && negb (hasSinks triage)
     && bool_decide (length (Triage.entryPoints triage) = 0%nat)
  then (Ok [], [])
  else
    match ai with
    | Throw e => (Throw e, [])
    | Ok response =>
        let '(parsed, log) := parseJsonResponse response in
        let body :=
          match parsed with
          | Throw e => Throw e
          | Ok (JArr findings) => js_map (injection_finding ent) 0 findings
          | Ok _ => Ok []
          end in
        match body with
        | Ok findings => (Ok findings, log)
        | Throw _ => (Ok [], (log ++ ["Injection stage parse error:"])%list)
        end
    end.

(** *** [runAuthStage] *)

(** Modelled from the spec: the auth adapter ([stages/auth-analyzer.ts] is
    not among the sources).  The spec gives all adapters one shape: parse the
    response, return an empty result on a parse failure, give each finding an
    id when the response omitted one, and set its category to the task's. *)
Definition auth_finding (ent : Entropy) (index : nat) (finding : json)
    : result json :=
  match get finding "id" with
  | Throw e => Throw e
  | Ok i =>
      Ok (JObj (spread finding ++
                [("id", or_else i (JStr (freshId ent "auth" index)));
                 ("category", JStr "auth")]))
  end.

(** Modelled from the spec: see [auth_finding]. *)
Definition runAuthStage (ai : result string) (ent : Entropy)
    : logged (list json) :=
  match ai with
  | Throw e => (Throw e, [])
  | Ok response =>
      let '(parsed, log) := parseJsonResponse response in
      let body :=
        match parsed with
        | Throw e => Throw e
        | Ok (JArr findings) => js_map (auth_finding ent) 0 findings
        | Ok _ => Ok []
        end in
      match body with
      | Ok findings => (Ok findings, log)
      | Throw _ => (Ok [], (log ++ ["Auth stage parse error:"])%list)
      end
  end.

End with_runtime.

End Stages.

(** ** The pipeline ([pipeline-workflow.ts]) *)

Module Workflow.

(** A raw finding is an object returned by a task adapter. *)
Definition RawFinding : Type := json.

Record ApprovalEvent := mkApproval {
  approved : bool;
  findingIds : list string
}.

(** What the run receives from outside.  Each stage function is an inference
    call behind [step.do]; its entry is what [step.do] yields once the
    platform is through with its retries and timeout: the stage's result, or
    the failure that [step.do] then throws.  [approval_outcome] is what
    [step.waitForEvent] yields: the event, or [None] when the 7 day window
    elapses, in which case the awaited promise rejects.  [clock] gives the
    time at which the agent serves the request made by the named step, and
    [failed_attempts] the number of attempts at the callback of the named
    step that failed before the attempt that settled the step. *)
Record Env := mkEnv {
  triage_outcome : result Triage.t;
  dependency_outcome : Triage.t → result (list RawFinding);
  auth_outcome : Triage.t → result (list RawFinding);
  injection_outcome : Triage.t → result (list RawFinding);
  secrets_outcome : result (list RawFinding);
  reachability_outcome :
    list RawFinding → Triage.DataFlowMap → result (list Finding.t);
  synthesis_outcome : nat → list Finding.t → result Synthesis.t;
  approval_outcome : option ApprovalEvent;
  remediation_outcome : list Finding.t → result (list Remediation.t);
  clock : string → Z;
  failed_attempts : string → nat
}.

(** What an observer of the run can see besides the store: the steps that
    were entered, in order, and the findings handed to the remediation task,
    once for each invocation of the task. *)
Inductive event :=
  | Step (name : string)
  | Remediate (approvedFindings : list Finding.t).

Record St := mkSt {
  db : Agent.DB;
  trace : list event
}.

(** The run: it reads and writes the agent's store through the three
    callbacks, leaves a trace, and returns or throws. *)
Definition M (A : Type) : Type := St → result A * St.

#[global] Instance M_ret : MRet M := λ A a s, (Ok a, s).
#[global] Instance M_bind : MBind M := λ A B f m s,
  match m s with
  | (Ok a, s') => f a s'
  | (Throw e, s') => (Throw e, s')
  end.

Definition emit (e : event) : M unit :=
  λ s, (Ok (), mkSt (db s) (trace s ++ [e])%list).

(** [await] of a promise that is settled with the given outcome. *)
Definition await {A} (r : result A) : M A := λ s, (r, s).

(** A request to the agent.  The three callbacks of the workflow address
    the Durable Object named by the first dash-separated segment of the
    review id ([idFromName(reviewId.split("-")[0] || "default")]); [db] is
    the store of that object.  The response is not inspected. *)
Definition agent (f : Agent.DB → Agent.DB) : M unit :=
  λ s, (Ok (), mkSt (f (db s)) (trace s)).

(** [step.do(name, callback)] for a callback that makes a request to the
    agent: the request is taken to be answered, so the callback does not
    fail and the platform has no attempt to repeat. *)
Definition step_do {A} (name : string) (body : M A) : M A :=
  _ ← emit (Step name); body.

(** [n] invocations of a callback, one after the other; what a failed
    attempt has thrown is kept by the platform, not by the run. *)
Fixpoint invocations (n : nat) (call : M unit) : M unit :=
  match n with
  | 0%nat => mret ()
  | S n' => _ ← call; invocations n' call
  end.

(** [step.do(name, { retries: { limit, delay, backoff }, timeout },
    callback)] for a callback that calls a stage function: the platform
    invokes the callback, and invokes it again after an attempt that has
    failed or run out of time, at most [limit] more times; the step yields
    what the last attempt gave.  [failed] is the number of attempts that
    failed before the one that settled the step, [call] is what an observer
    sees of one invocation of the callback, and [settled] is what the step
    yields. *)
Definition step_do_retrying {A} (name : string) (limit failed : nat)
    (call : M unit) (settled : result A) : M A :=
  _ ← emit (Step name);
  _ ← invocations (S (min failed limit)) call;
  await settled.

(** [Promise.all] over the four analysis steps: all four are started; the
    join yields the four results when every one of them has produced one,
    and rejects when one of them has failed.  Which failure it reports when
    several fail depends on timing; the first in array order stands for it. *)
Definition promise_all4 {A} (p1 p2 p3 p4 : M A) : M (A * A * A * A) :=
  λ s,
    let '(r1, s1) := p1 s in
    let '(r2, s2) := p2 s1 in
    let '(r3, s3) := p3 s2 in
    let '(r4, s4) := p4 s3 in
    match r1, r2, r3, r4 with
    | Ok a, Ok b, Ok c, Ok d => (Ok (a, b, c, d), s4)
    | Throw e, _, _, _ => (Throw e, s4)
    | _, Throw e, _, _ => (Throw e, s4)
    | _, _, Throw e, _ => (Throw e, s4)
    | _, _, _, Throw e => (Throw e, s4)
    end.

Section run.
Context (env : Env) (reviewId : string).

Definition updateReviewStatus (step status : string)
    (currentStage : option string) : M unit :=
  agent (λ d, Agent.update_status d reviewId status currentStage (clock env step)).

Definition storeFindings (step : string) (fs : list Finding.t)
    (synthesis : Synthesis.t) : M unit :=
  agent (λ d, Agent.store_findings d reviewId fs synthesis (clock env step)).

Definition storeRemediations (rs : list Remediation.t) : M unit :=
  agent (λ d, Agent.store_remediations d reviewId rs).

Definition waitForEvent (name : string) : M ApprovalEvent :=
  _ ← emit (Step name);
  match approval_outcome env with
  | Some ev => mret ev
  | None => await (Throw (Error "waitForEvent timed out"))
  end.

(** [approval.findingIds.includes(f.id)] and [f.isReachable] *)
Definition is_approved (approval : ApprovalEvent) (f : Finding.t) : Prop :=
  Finding.isReachable f = true ∧ Finding.id f ∈ findingIds approval.

#[global] Instance is_approved_dec approval f : Decision (is_approved approval f).
Proof. unfold is_approved. apply _. Defined.

Record RunResult := mkResult {
  status : string;
  synthesis : Synthesis.t;
  remediations : list Remediation.t
}.

(** [run] up to the suspension point: stages 1 to 7, the store of the
    findings and the status [awaiting_approval]. *)
Definition analyse : M (list Finding.t * Synthesis.t) :=
  triage ←
    step_do_retrying "triage" 2 (failed_attempts env "triage") (mret ())
      (triage_outcome env);
  _ ← step_do "update-status-analyzing"
        (updateReviewStatus "update-status-analyzing" "analyzing" (Some "dependency"));
  '(dependencyFindings, authFindings, injectionFindings, secretsFindings) ←
    promise_all4
      (step_do_retrying "dependency-analysis" 2
         (failed_attempts env "dependency-analysis") (mret ())
         (dependency_outcome env triage))
      (step_do_retrying "auth-analysis" 2
         (failed_attempts env "auth-analysis") (mret ())
         (auth_outcome env triage))
      (step_do_retrying "injection-analysis" 2
         (failed_attempts env "injection-analysis") (mret ())
         (injection_outcome env triage))
      (step_do_retrying "secrets-analysis" 2
         (failed_attempts env "secrets-analysis") (mret ())
         (secrets_outcome env));
  let allRawFindings :=
    (dependencyFindings ++ authFindings ++ injectionFindings
       ++ secretsFindings)%list in
  _ ← step_do "update-status-filtering"
        (updateReviewStatus "update-status-filtering" "filtering" (Some "reachability"));
  filteredFindings ←
    step_do_retrying "reachability-filter" 2
      (failed_attempts env "reachability-filter") (mret ())
      (reachability_outcome env allRawFindings (Triage.dataFlowMap triage));
  synthesis ←
    step_do_retrying "synthesis" 2 (failed_attempts env "synthesis") (mret ())
      (synthesis_outcome env (length allRawFindings) filteredFindings);
  _ ← step_do "store-findings"
        (storeFindings "store-findings" filteredFindings synthesis);
  _ ← step_do "update-status-awaiting-approval"
        (updateReviewStatus "update-status-awaiting-approval"
           "awaiting_approval" (Some "approval"));
  mret (filteredFindings, synthesis).

(** [run] from the suspension point on. *)
Definition resume (filteredFindings : list Finding.t) (synthesis : Synthesis.t)
    : M RunResult :=
  approval ← waitForEvent "approval";
  if negb (approved approval)
     || bool_decide (length (findingIds approval) = 0%nat)
  then
    _ ← step_do "update-status-completed-no-remediation"
          (updateReviewStatus "update-status-completed-no-remediation"
             "completed" None);
    mret (mkResult "completed" synthesis [])
  else
    _ ← step_do "update-status-remediating"
          (updateReviewStatus "update-status-remediating"
             "remediating" (Some "remediation"));
    let approvedFindings := filter (is_approved approval) filteredFindings in
    remediations ←
      step_do_retrying "remediation" 2 (failed_attempts env "remediation")
        (emit (Remediate approvedFindings))
        (remediation_outcome env approvedFindings);
    _ ← step_do "store-remediations" (storeRemediations remediations);
    _ ← step_do "update-status-completed"
          (updateReviewStatus "update-status-completed" "completed" None);
    mret (mkResult "completed" synthesis remediations).

Definition run : M RunResult :=
  '(filteredFindings, synthesis) ← analyse;
  resume filteredFindings synthesis.

End run.

End Workflow.

(** ** Stages whose source is not available *)

Module Spec.

(** Modelled from the spec: the noise-reduction percentage of the Synthesis
    stage ([stages/synthesis.ts] is not among the sources).  Section 4.4:
    "noise-reduction percentage = (raw − reachable) / raw × 100 (defined as
    0 when raw = 0)". *)
Definition noise_reduction (raw reachable : Z) : Qc :=
  if decide (raw = 0) then 0%Qc
  else (Qc_of_Z (raw - reachable) / Qc_of_Z raw * Qc_of_Z 100)%Qc.

(** Modelled from the spec: [runSynthesisStage] ([stages/synthesis.ts] is
    not among the sources).  Section 4.4: "Input: total raw count, filtered
    Finding list.  Computes: reachable count, noise-reduction percentage,
    and a short natural-language summary.  Pure function of its inputs". *)
Definition runSynthesisStage (totalRaw : nat) (filteredFindings : list Finding.t)
    (summary : string) : Synthesis.t :=
  let reachable := Agent.reachableCount filteredFindings in
  Synthesis.mk (Z.of_nat totalRaw) reachable
    (noise_reduction (Z.of_nat totalRaw) reachable) summary.

(** The generated part of a remediation: what the inference call returns
    for one finding, with the id and timestamp the stage gives it. *)
Record Fix := mkFix {
  fix_id : string;
  fix_originalCode : string;
  fix_fixedCode : string;
  fix_explanation : string;
  fix_diffHunks : list string;
  fix_createdAt : Z
}.

(** Modelled from the spec: [runRemediationStage] ([stages/remediation.ts]
    is not among the sources).  Section 3: "Remediation — a generated fix
    for one approved, reachable Finding", with its "owning finding id" and
    "owning review id": one record for each finding handed to the task. *)
Definition runRemediationStage (generate : Finding.t → Fix) (reviewId : string)
    (approvedFindings : list Finding.t) : list Remediation.t :=
  (λ f, let x := generate f in
        Remediation.mk (fix_id x) (Finding.id f) reviewId (fix_originalCode x)
          (fix_fixedCode x) (fix_explanation x) (fix_diffHunks x)
          (fix_createdAt x)) <$> approvedFindings.

(** [falsePositiveReason] is non-empty. *)
Definition has_reason (f : Finding.t) : bool :=
  match Reachability.falsePositiveReason (Finding.reachabilityAnalysis f) with
  | Some s => negb (bool_decide (s = EmptyString))
  | None => false
  end.

(** [dataFlowPath] is non-empty. *)
Definition has_path (f : Finding.t) : bool :=
  match Reachability.dataFlowPath (Finding.reachabilityAnalysis f) with
  | Some (_ :: _) => true
  | _ => false
  end.

(** Modelled from the spec: the structural contract of
    [runReachabilityFilter] ([stages/reachability.ts] is not among the
    sources).  Section 4.3: "reachable findings carry a non-empty data-flow
    path, unreachable findings carry a non-empty reason"; section 8:
    "isReachable == false iff falsePositiveReason is non-empty; isReachable
    == true iff dataFlowPath is non-empty". *)
Definition verdict_consistent (f : Finding.t) : Prop :=
  (Finding.isReachable f = false ↔ has_reason f = true) ∧
  (Finding.isReachable f = true ↔ has_path f = true).

End Spec.

(** ** Properties of the store *)

(** The statistics of a review agree: the percentage is the one that the
    two counts determine. *)
Definition noise_consistent (r : ReviewRow.t) : Prop :=
  let raw := ReviewRow.total_findings_raw r in
  let filtered := ReviewRow.total_findings_filtered r in
  (0 < raw →
   ReviewRow.noise_reduction_percent r
   = (Qc_of_Z (raw - filtered) / Qc_of_Z raw * Qc_of_Z 100)%Qc) ∧
  (raw = 0 → ReviewRow.noise_reduction_percent r = 0%Qc).

(** The stores that the service can be in: every write to the store is one
    of the operations of [Agent], and [/store-findings] is called by the
    workflow alone, with the result of the synthesis step over the raw count
    and the findings it stores. *)
Inductive reachable : Agent.DB → Prop :=
  | reach_empty : reachable Agent.empty
  | reach_submit db reviewId userId code language instance now1 now2 :
      reachable db →
      reachable (Agent.submit_review db reviewId userId code language instance now1 now2)
  | reach_update_status db reviewId status stage now :
      reachable db →
      reachable (Agent.update_status db reviewId status stage now)
  | reach_store_findings db reviewId totalRaw fs summary now :
      reachable db →
      reachable (Agent.store_findings db reviewId fs
                   (Spec.runSynthesisStage totalRaw fs summary) now)
  | reach_store_remediations db reviewId rs :
      reachable db →
      reachable (Agent.store_remediations db reviewId rs)
  | reach_approve db reviewId findingIds now :
      reachable db →
      reachable (Agent.approve_findings db reviewId findingIds now).

(** Every stored finding reads back with a consistent verdict. *)
Definition findings_consistent (db : Agent.DB) : Prop :=
  ∀ i row, Agent.findings db !! i = Some row →
           Spec.verdict_consistent (Agent.mapFindingFromDb row).

(** ** Properties of a run *)

Definition invoked (name : string) (tr : list Workflow.event) : Prop :=
  Workflow.Step name ∈ tr.

(** Step [a] was entered before step [b]. *)
Definition entered_before (a b : string) (tr : list Workflow.event) : Prop :=
  ∃ i j, (i < j)%nat ∧ tr !! i = Some (Workflow.Step a)
         ∧ tr !! j = Some (Workflow.Step b).

(** The status column of a review, if the review is in the store. *)
Definition status_of (db : Agent.DB) (reviewId : string) : option string :=
  ReviewRow.status <$> Agent.reviews db !! reviewId.

(** ** Sample data *)

Module Sample.

Definition node (n : string) : PathNode.t := PathNode.mk n "source" "user input".

Definition reachable_finding (i severity : string) : Finding.t :=
  Finding.mk i "injection" severity "SQL injection" "query built by concatenation"
    (Location.mk 3 3 "db.query(q)") (Some "CWE-89") None true
    (Reachability.mk true (Some [node "req.query.id"; node "db.query"]) (Some []) None).

Definition filtered_finding (i severity : string) : Finding.t :=
  Finding.mk i "secrets" severity "Hardcoded key" "test fixture"
    (Location.mk 9 9 "const k = 1") None None false
    (Reachability.mk false (Some []) (Some ["parseInt"])
       (Some "value never leaves the test file")).

Definition f1 : Finding.t := reachable_finding "f1" "high".
Definition f2 : Finding.t := filtered_finding "f2" "low".
Definition f3 : Finding.t := reachable_finding "f3" "critical".
Definition f4 : Finding.t := reachable_finding "f4" "medium".

Definition findings : list Finding.t := [f1; f2; f3; f4].

(** A store with one review, as [submit_review] leaves it. *)
Definition db0 : Agent.DB :=
  Agent.submit_review Agent.empty "rev-1" "u1" "code" None "rev-1" 10 11.

Definition synthesis : Synthesis.t := Spec.runSynthesisStage 6 findings "summary".

Definition db1 : Agent.DB := Agent.store_findings db0 "rev-1" findings synthesis 20.

Definition triage : Triage.t :=
  Triage.mk "javascript" "express" "api" [Triage.mkRisk "injection"]
    (Triage.mkMap [node "req.query.id"] [node "db.query"] []) ["GET /user"].

Definition raw (title : string) : json := JObj [("title", JStr title)].

Definition generate (f : Finding.t) : Spec.Fix :=
  Spec.mkFix ("rem-" +:+ Finding.id f) "db.query(q)" "db.query(q, [id])"
    "use a parameterised query" [] 30.

(** An environment in which every stage succeeds, but for the dependency
    step and the approval, which are given. *)
Definition env (dependency : result (list json))
    (approval : option Workflow.ApprovalEvent) : Workflow.Env :=
  Workflow.mkEnv (Ok triage) (λ _, dependency) (λ _, Ok [raw "a"])
    (λ _, Ok [raw "b"; raw "c"]) (Ok [raw "d"])
    (λ _ _, Ok findings)
    (λ n fs, Ok (Spec.runSynthesisStage n fs "summary"))
    approval
    (λ fs, Ok (Spec.runRemediationStage generate "rev-1" fs))
    (λ _, 20) (λ _, 0%nat).

Definition start : Workflow.St := Workflow.mkSt db0 [].

(** The reviewer approves [f1] and [f2]: [f1] is reachable, [f2] is not,
    and the reachable [f3] and [f4] are not named. *)
Definition approval : Workflow.ApprovalEvent :=
  Workflow.mkApproval true ["f1"; "f2"].

Definition approving : Workflow.Env := env (Ok []) (Some approval).

Definition rejection : Workflow.ApprovalEvent := Workflow.mkApproval false [].

(** The dependency step fails for good. *)
Definition failing : Workflow.Env :=
  env (Throw (Error "Failed to parse AI response as JSON")) (Some approval).

(** The synthesis of a run in these environments: four raw findings. *)
Definition synthesis4 : Synthesis.t := Spec.runSynthesisStage 4 findings "summary".

(** The text of the responses used below; the quote character is built from
    its code. *)
Definition dq : string := String (Ascii.ascii_of_nat 34) EmptyString.
Definition quoted (s : string) : string := dq +:+ s +:+ dq.

(** [Sorry, I cannot analyse this code.] *)
Definition prose : string := "Sorry, I cannot analyse this code.".

(** An object where an array is asked for: [{ findings: [] }] with the key
    quoted. *)
Definition wrapped : string := "{" +:+ quoted "findings" +:+ ": []}".

(** An array of one finding that carries an id and the category [auth], and
    one that carries neither. *)
Definition labelled : string :=
  "[{" +:+ quoted "id" +:+ ":" +:+ quoted "x1" +:+ ","
       +:+ quoted "category" +:+ ":" +:+ quoted "auth" +:+ "},{"
       +:+ quoted "title" +:+ ":" +:+ quoted "t" +:+ "}]".

(** A runtime that agrees with JavaScript on the three responses above:
    none has surrounding blanks or a code fence, the second regular
    expression matches the whole of the two that start with a brace or a
    bracket and nothing of the prose, and [JSON.parse] rejects the prose. *)
Definition runtime : JsRuntime := {|
  trim := λ s, s;
  match_fence := λ _, None;
  match_json := λ s,
    if decide (s = wrapped ∨ s = labelled) then Some s else None;
  JSON_parse := λ s,
    if decide (s = wrapped) then Some (JObj [("findings", JArr [])])
    else if decide (s = labelled)
    then Some (JArr [JObj [("id", JStr "x1"); ("category", JStr "auth")];
                     JObj [("title", JStr "t")]])
    else None
|}.

Definition entropy : Stages.Entropy := λ _, ("mb3k2x1a", "q9z4ff").

End Sample.

(** ** The other tools of the agent ([secpipe-agent.ts]) *)

Module Tools.

(** *** [check_status]; [None] is the reply [{ error: "Review not found" }]. *)
Record StatusResponse := mkStatus {
  status_reviewId : string;
  status_status : string;
  status_currentStage : option string;
  status_stats : Agent.Stats;
  status_error : option string
}.

Definition check_status (db : Agent.DB) (reviewId : string)
    : option StatusResponse :=
  (λ review,
     mkStatus (ReviewRow.id review) (ReviewRow.status review)
       (ReviewRow.current_stage review)
       (Agent.mkStats (ReviewRow.total_findings_raw review)
          (ReviewRow.total_findings_filtered review)
          (ReviewRow.noise_reduction_percent review))
       (truthy_str (ReviewRow.error review)))
  <$> Agent.reviews db !! reviewId.

(** *** [mapRemediationFromDb] *)
Definition mapRemediationFromDb (r : RemediationRow.t) : Remediation.t :=
  Remediation.mk (RemediationRow.id r) (RemediationRow.finding_id r)
    (RemediationRow.review_id r) (RemediationRow.original_code r)
    (RemediationRow.fixed_code r) (RemediationRow.explanation r)
    (RemediationRow.diff_hunks r) (RemediationRow.created_at r).

(** *** [get_remediation] *)

(** [WHERE review_id = ? AND finding_id = ?] when [findingId] is truthy,
    [WHERE review_id = ?] otherwise. *)
Definition remediation_where (reviewId : string) (findingId : option string)
    (r : RemediationRow.t) : Prop :=
  RemediationRow.review_id r = reviewId ∧
  match truthy_str findingId with
  | Some f => RemediationRow.finding_id r = f
  | None => True
  end.

#[global] Instance remediation_where_dec reviewId findingId r :
  Decision (remediation_where reviewId findingId r).
Proof.
  unfold remediation_where. destruct (truthy_str findingId); apply _.
Defined.

Record RemediationResponse := mkRemediations {
  rem_reviewId : string;
  remediationsCount : nat;
  rem_remediations : list Remediation.t
}.

(** The SELECT has no ORDER BY: the order of the rows is the table's. *)
Definition get_remediation (db : Agent.DB) (reviewId : string)
    (findingId : option string) : RemediationResponse :=
  let remediations :=
    filter (remediation_where reviewId findingId)
      (map_to_list (Agent.remediations db)).*2 in
  mkRemediations reviewId (length remediations)
    (mapRemediationFromDb <$> remediations).

(** *** [list_reviews] *)
Record ReviewSummary := mkSummary {
  sum_id : string;
  sum_status : string;
  sum_currentStage : option string;
  sum_stats : Agent.Stats;
  sum_createdAt : Z;
  sum_updatedAt : Z;
  sum_error : option string
}.

Definition summary (review : ReviewRow.t) : ReviewSummary :=
  mkSummary (ReviewRow.id review) (ReviewRow.status review)
    (ReviewRow.current_stage review)
    (Agent.mkStats (ReviewRow.total_findings_raw review)
       (ReviewRow.total_findings_filtered review)
       (ReviewRow.noise_reduction_percent review))
    (ReviewRow.created_at review) (ReviewRow.updated_at review)
    (truthy_str (ReviewRow.error review)).

(** [ORDER BY created_at DESC] *)
Definition newest_first (a b : ReviewRow.t) : Prop :=
  ReviewRow.created_at b ≤ ReviewRow.created_at a.

#[global] Instance newest_first_dec : RelDecision newest_first.
Proof. intros a b. unfold newest_first. apply _. Defined.




(** *** [compare_reviews] *)

(** [SELECT * FROM findings WHERE review_id = ? AND is_reachable = 1] *)
Definition reachable_rows (db : Agent.DB) (reviewId : string)
    : list FindingRow.t :=
  filter (λ row, FindingRow.review_id row = reviewId
                 ∧ FindingRow.is_reachable row = 1)
    (map_to_list (Agent.findings db)).*2.

(** The template [title:location_start_line], for a whole line number. *)
Definition diff_key (row : FindingRow.t) : string :=
  FindingRow.title row +:+ ":" +:+ pretty (FindingRow.location_start_line row).

Record Comparison := mkComparison {
  cmp_count1 : nat;
  cmp_count2 : nat;
  delta : Z;
  newVulnerabilities : list Finding.t;
  fixedVulnerabilities : list Finding.t
}.

Definition compare_reviews (db : Agent.DB) (reviewId1 reviewId2 : string)
    : Comparison :=
  let findings1 := reachable_rows db reviewId1 in
  let findings2 := reachable_rows db reviewId2 in
  let findings1Set := diff_key <$> findings1 in
  let findings2Set := diff_key <$> findings2 in
  let newInReview2 := filter (λ f, diff_key f ∉ findings1Set) findings2 in
  let fixedInReview2 := filter (λ f, diff_key f ∉ findings2Set) findings1 in
  mkComparison (length findings1) (length findings2)
    (Z.of_nat (length findings2) - Z.of_nat (length findings1))
    (Agent.mapFindingFromDb <$> newInReview2)
    (Agent.mapFindingFromDb <$> fixedInReview2).

End Tools.

(** ** [runAIAnalysis] ([stages/utils.ts]) *)

Module Utils.

(** What the adapters receive from the inference binding: [call] is what
    [env.AI.run] resolves to, or the error it rejects with. *)
Definition runAIAnalysis (call : result json) : result string :=
  match call with
  | Throw e => Throw e
  | Ok (JStr s) => Ok s
  | Ok (JObj fs) =>
      match Stages.field "response" fs with
      | Some (JStr s) => Ok s
      | _ =>
          match Stages.field "text" fs with
          | Some (JStr s) => Ok s
          | _ => Throw (Error "Unexpected AI response format")
          end
      end
  | Ok _ => Throw (Error "Unexpected AI response format")
  end.

End Utils.

(** ** Further properties of the store and of a run *)

(** Every row of the findings table is filed under its own id, as a primary
    key column is. *)
Definition well_keyed (db : Agent.DB) : Prop :=
  ∀ i row, Agent.findings db !! i = Some row → FindingRow.id row = i.

(** A finding that the store returns as it was given: no optional text is
    empty and the two lists of the analysis are present. *)
Definition canonical (f : Finding.t) : Prop :=
  Finding.cweId f ≠ Some EmptyString
  ∧ Finding.owaspCategory f ≠ Some EmptyString
  ∧ Reachability.falsePositiveReason (Finding.reachabilityAnalysis f)
    ≠ Some EmptyString
  ∧ is_Some (Reachability.dataFlowPath (Finding.reachabilityAnalysis f))
  ∧ is_Some (Reachability.sanitizersInPath (Finding.reachabilityAnalysis f)).

(** No character of the string is a colon. *)
Fixpoint colonless (s : string) : Prop :=
  match s with
  | EmptyString => True
  | String c rest => c ≠ ":"%char ∧ colonless rest
  end.

(** The names of the steps entered, in order. *)
Definition step_names (tr : list Workflow.event) : list string :=
  omap (λ e, match e with
             | Workflow.Step name => Some name
             | Workflow.Remediate _ => None
             end) tr.

(** The lists of findings that the remediation task was called with. *)
Definition remediation_calls (tr : list Workflow.event)
    : list (list Finding.t) :=
  omap (λ e, match e with
             | Workflow.Step _ => None
             | Workflow.Remediate approvedFindings => Some approvedFindings
             end) tr.

(** The steps of a run up to the suspension point and the wait. *)
Definition steps_to_approval : list string :=
  ["triage"; "update-status-analyzing"; "dependency-analysis";
   "auth-analysis"; "injection-analysis"; "secrets-analysis";
   "update-status-filtering"; "reachability-filter"; "synthesis";
   "store-findings"; "update-status-awaiting-approval"; "approval"].

(** The steps of a run with remediation, and of a run without. *)
Definition steps_with_remediation : list string :=
  steps_to_approval ++
  ["update-status-remediating"; "remediation"; "store-remediations";
   "update-status-completed"].

Definition steps_without_remediation : list string :=
  steps_to_approval ++ ["update-status-completed-no-remediation"].

(** The triage gave the injection task nothing to look at: no risk area of
    its categories, no sink and no entry point. *)
Definition nothing_to_inject (triage : Triage.t) : Prop :=
  Forall (λ area, Triage.category area ∉ Stages.injection_categories)
    (Triage.riskAreas triage)
  ∧ Triage.sinks (Triage.dataFlowMap triage) = []
  ∧ Triage.entryPoints triage = [].

(** An adapter returned one finding for each item, in the order of the
    items, with every property of the item but id and category as the
    item has it, and logged nothing. *)
Definition keeps_items (items : list json) (r : Stages.logged (list json))
    : Prop :=
  ∃ out, r = (Ok out, [])
         ∧ length out = length items
         ∧ ∀ k x, items !! k = Some x →
                  ∃ y, out !! k = Some y
                       ∧ ∀ key, key ≠ "id" → key ≠ "category" →
                                Stages.prop key y
                                = Stages.field key (Stages.spread x).

(** The writes that took the store [db] to [db'] stayed with one review:
    the rows of the other reviews are as they were, and every finding and
    every remediation that is new or changed belongs to that review. *)
Definition confined (reviewId : string) (db db' : Agent.DB) : Prop :=
  (∀ other, other ≠ reviewId →
            Agent.reviews db' !! other = Agent.reviews db !! other)
  ∧ (∀ i row, Agent.findings db' !! i = Some row →
              Agent.findings db !! i = Some row
              ∨ FindingRow.review_id row = reviewId)
  ∧ (∀ i row, Agent.remediations db' !! i = Some row →
              Agent.remediations db !! i = Some row
              ∨ RemediationRow.review_id row = reviewId).

(** ** A response with a null item *)

Module Mixed.

(** The array of one finding and [null]. *)
Definition response : string :=
  "[{" +:+ Sample.quoted "title" +:+ ":" +:+ Sample.quoted "t" +:+ "},null]".

Definition items : list json := [JObj [("title", JStr "t")]; JNull].

(** A runtime that agrees with JavaScript on this response, and with
    [Sample.runtime] on every other text. *)
Definition runtime : JsRuntime := {|
  trim := λ s, s;
  match_fence := λ _, None;
  match_json := λ s,
    if decide (s = response) then Some s else @match_json Sample.runtime s;
  JSON_parse := λ s,
    if decide (s = response) then Some (JArr items)
    else @JSON_parse Sample.runtime s
|}.

(** A triage with nothing for the injection task. *)
Definition quiet : Triage.t :=
  Triage.mk "javascript" "express" "library" [Triage.mkRisk "crypto"]
    (Triage.mkMap [] [] []) [].

End Mixed.

(** ** The objects of the agent ([index.ts], [pipeline-workflow.ts]) *)

Module Objects.

(** The id of an object of the namespace [SECPIPE_AGENT]: the id that
    [idFromName] gives for a name, or the id under which the agents package
    keeps the object of an MCP session ([submit_review] notes that
    "McpAgent uses unique IDs, not named IDs"). *)
Inductive Id :=
  | FromName (name : string)
  | OfSession (sessionId : string).

#[global] Instance Id_eq_dec : EqDecision Id.
Proof. solve_decision. Defined.

(** The objects that serve [/mcp], and with it the tools: the object of the
    session in the [index.ts] that routes with [SecPipeAgent.serve], the
    object [idFromName("secpipe-shared")] in the [index.ts] that routes
    with [handleMcpRequest]. *)
Definition serves_mcp (o : Id) : Prop :=
  o = FromName "secpipe-shared" ∨ ∃ sessionId, o = OfSession sessionId.

(** [reviewId.split("-")[0]] *)
Fixpoint first_segment (s : string) : string :=
  match s with
  | EmptyString => EmptyString
  | String c rest =>
      if decide (c = "-"%char) then EmptyString
      else String c (first_segment rest)
  end.

(** [idFromName(reviewId.split("-")[0] || "default")]: the object that
    [updateReviewStatus], [storeFindings] and [storeRemediations] address.
    The [doId] that [submit_review] puts into the parameters of the
    workflow is not read. *)
Definition callback_object (reviewId : string) : Id :=
  let name := first_segment reviewId in
  FromName (if decide (name = EmptyString) then "default" else name).

End Objects.

(** ** The service: the objects with their stores *)

Module System.

(** The store of every object; [initializeDatabase] gives an object that
    is addressed for the first time empty tables. *)
Definition World : Type := Objects.Id → Agent.DB.

Definition start : World := λ _, Agent.empty.

Definition put (o : Objects.Id) (db : Agent.DB) (w : World) : World :=
  λ o', if decide (o' = o) then db else w o'.

(** [submit_review] in the object that serves the session: the review id
    is [generateId("rev")], the row is written to the store of that
    object, and the workflow instance is created under the review id. *)
Definition submit_review (w : World) (session : Objects.Id)
    (userId code : string) (language : option string)
    (timestamp random : string) (now1 now2 : Z) : string * World :=
  let reviewId := Stages.generateId "rev" timestamp random in
  (reviewId,
   put session
     (Agent.submit_review (w session) reviewId userId code language reviewId
        now1 now2) w).

(** [approve_findings] in the object that serves the session: its writes. *)
Definition approve_findings (w : World) (session : Objects.Id)
    (reviewId : string) (findingIds : list string) (now : Z) : World :=
  put session (Agent.approve_findings (w session) reviewId findingIds now) w.

Record Outcome := mkOutcome {
  outcome : result Workflow.RunResult;
  world : World;
  steps : list Workflow.event
}.

(** The run of the workflow instance of a review: its callbacks read and
    write the store of [Objects.callback_object reviewId]. *)
Definition run (env : Workflow.Env) (reviewId : string) (w : World) : Outcome :=
  let target := Objects.callback_object reviewId in
  let out := Workflow.run env reviewId (Workflow.mkSt (w target) []) in
  mkOutcome out.1 (put target (Workflow.db out.2) w) (Workflow.trace out.2).

(** The worlds that the service can be in: reviews are submitted and
    findings approved through the objects that serve [/mcp], and the runs
    are those of submitted reviews. *)
Inductive reachable : World → Prop :=
  | reach_start : reachable start
  | reach_submit w session userId code language timestamp random now1 now2 :
      reachable w →
      Objects.serves_mcp session →
      reachable (submit_review w session userId code language timestamp random
                   now1 now2).2
  | reach_approve w session reviewId findingIds now :
      reachable w →
      Objects.serves_mcp session →
      reachable (approve_findings w session reviewId findingIds now)
  | reach_run w env timestamp random :
      reachable w →
      reachable (world (run env (Stages.generateId "rev" timestamp random) w)).

End System.

(** A review as [submit_review] leaves it, read by [check_status]. *)
Definition as_submitted (reviewId : string) : Tools.StatusResponse :=
  Tools.mkStatus reviewId "triaging" (Some "triage")
    (Agent.mkStats 0 0 0%Qc) None.

(** The rows of the reviews table are as [submit_review] leaves them. *)
Definition untouched_reviews (db : Agent.DB) : Prop :=
  ∀ i, Tools.check_status db i = None
       ∨ Tools.check_status db i = Some (as_submitted i).

(** The writes that took [db] to [db'] marked no review failed and recorded
    no error: a review has the status [failed] after them only if it had
    it before, and every error column is as it was. *)
Definition marks_no_failure (db db' : Agent.DB) : Prop :=
  ∀ i, (status_of db' i = Some "failed" → status_of db i = Some "failed")
       ∧ ReviewRow.error <$> Agent.reviews db' !! i
         = ReviewRow.error <$> Agent.reviews db !! i.

(** ** A review submitted through the shared object *)

Module Live.

Definition session : Objects.Id := Objects.FromName "secpipe-shared".

Definition submitted : string * System.World :=
  System.submit_review System.start session "u1" "code" None
    "mb3k2x1a" "q9z4ff" 10 11.

Definition reviewId : string := submitted.1.

Definition world : System.World := submitted.2.

(** The event that [approve_findings] sends for an empty list. *)
Definition nothing_approved : Workflow.ApprovalEvent :=
  Workflow.mkApproval true [].

(** The environments of [Sample], with remediations for this review and
    with one failed attempt at the remediation task. *)
Definition env (dependency : result (list json))
    (approval : option Workflow.ApprovalEvent) : Workflow.Env :=
  Workflow.mkEnv (Ok Sample.triage) (λ _, dependency)
    (λ _, Ok [Sample.raw "a"]) (λ _, Ok [Sample.raw "b"; Sample.raw "c"])
    (Ok [Sample.raw "d"]) (λ _ _, Ok Sample.findings)
    (λ n fs, Ok (Spec.runSynthesisStage n fs "summary"))
    approval
    (λ fs, Ok (Spec.runRemediationStage Sample.generate reviewId fs))
    (λ _, 20)
    (λ step, if decide (step = "remediation") then 1%nat else 0%nat).

End Live.

(** * Facts about the store *)

Section store_facts.
Implicit Types (db : Agent.DB) (fs : list Finding.t) (f : Finding.t).
Implicit Types (tbl : gmap string FindingRow.t) (row : FindingRow.t).

(** ** The insert loop *)

Lemma insert_findings_cons reviewId f fs tbl :
  Agent.insert_findings reviewId (f :: fs) tbl
  = Agent.insert_findings reviewId fs
      (<[Finding.id f := Agent.finding_row reviewId f]> tbl).
Proof. reflexivity. Qed.

Lemma insert_findings_snoc reviewId fs f tbl :
  Agent.insert_findings reviewId (fs ++ [f]) tbl
  = <[Finding.id f := Agent.finding_row reviewId f]>
      (Agent.insert_findings reviewId fs tbl).
Proof. unfold Agent.insert_findings. by rewrite foldl_snoc. Qed.

(** A row ends up in the table because it was there or because the loop
    wrote it for one of the findings. *)
Lemma insert_findings_lookup reviewId fs tbl i row :
  Agent.insert_findings reviewId fs tbl !! i = Some row →
  tbl !! i = Some row ∨
  ∃ f, f ∈ fs ∧ Finding.id f = i ∧ row = Agent.finding_row reviewId f.
Proof.
  revert tbl. induction fs as [|f fs IH]; intros tbl Hrow; [by left|].
  rewrite insert_findings_cons in Hrow.
  destruct (IH _ Hrow) as [Hold | (g & Hg & Hid & ->)].
  - apply lookup_insert_Some in Hold as [[<- <-] | [_ Hold]]; [|by left].
    right. exists f. split_and!; [apply elem_of_cons; by left | done | done].
  - right. exists g. split_and!; [apply elem_of_cons; by right | done | done].
Qed.

(** Every finding of the list has a row under its id once the loop is through. *)
Lemma insert_findings_covers reviewId fs tbl f :
  f ∈ fs → is_Some (Agent.insert_findings reviewId fs tbl !! Finding.id f).
Proof.
  induction fs as [|g fs IH] using rev_ind; [by intros ?%elem_of_nil|].
  rewrite insert_findings_snoc. intros [Hf | ->%list_elem_of_singleton]%elem_of_app.
  - destruct (decide (Finding.id g = Finding.id f)) as [->|Hne].
    + rewrite lookup_insert_eq. eauto.
    + rewrite lookup_insert_ne by done. auto.
  - rewrite lookup_insert_eq. eauto.
Qed.

(** Writing [k] first makes no difference once the loop has been followed
    by a write of [k]. *)
Lemma insert_findings_mask reviewId fs tbl k v w :
  <[k := v]> (Agent.insert_findings reviewId fs (<[k := w]> tbl))
  = <[k := v]> (Agent.insert_findings reviewId fs tbl).
Proof.
  revert tbl. induction fs as [|f fs IH]; intros tbl.
  - simpl. apply insert_insert_eq.
  - rewrite !insert_findings_cons.
    destruct (decide (Finding.id f = k)) as [->|Hne].
    + by rewrite insert_insert_eq.
    + rewrite insert_insert_ne by done. apply IH.
Qed.

(** Running the loop a second time over the same list changes nothing. *)
Lemma insert_findings_absorb reviewId fs tbl :
  Agent.insert_findings reviewId fs (Agent.insert_findings reviewId fs tbl)
  = Agent.insert_findings reviewId fs tbl.
Proof.
  induction fs as [|f fs IH] using rev_ind; [done|].
  by rewrite !insert_findings_snoc, insert_findings_mask, IH.
Qed.

(** ** The statistics update *)

Lemma set_stats_twice raw filtered pct t1 t2 (m : gmap string ReviewRow.t) k :
  alter (ReviewRow.set_stats raw filtered pct t2) k
    (alter (ReviewRow.set_stats raw filtered pct t1) k m)
  = alter (ReviewRow.set_stats raw filtered pct t2) k m.
Proof.
  apply map_eq; intros i. destruct (decide (k = i)) as [<-|Hne].
  - rewrite !lookup_alter_eq. by destruct (m !! k).
  - by rewrite !lookup_alter_ne.
Qed.

Lemma store_findings_twice db reviewId fs synthesis t1 t2 :
  Agent.store_findings (Agent.store_findings db reviewId fs synthesis t1)
    reviewId fs synthesis t2
  = Agent.store_findings db reviewId fs synthesis t2.
Proof.
  unfold Agent.store_findings; simpl.
  by rewrite set_stats_twice, insert_findings_absorb.
Qed.

(** The statistics written are the arguments', whatever was there. *)
Lemma store_findings_review db reviewId fs synthesis now i :
  Agent.reviews (Agent.store_findings db reviewId fs synthesis now) !! i
  = if decide (reviewId = i)
    then ReviewRow.set_stats (Synthesis.totalRaw synthesis)
           (Agent.reachableCount fs)
           (Synthesis.noiseReductionPercent synthesis) now
         <$> Agent.reviews db !! reviewId
    else Agent.reviews db !! i.
Proof. unfold Agent.store_findings; simpl. apply lookup_alter. Qed.

(** C3: store-findings is idempotent.  Invoked a second time with the same
    review id, findings and synthesis, it leaves the findings table as the
    first invocation left it (the same rows with the same values, hence the
    same row count), leaves the remediations alone, and leaves every review
    with the same statistics.  The whole store after the two invocations is
    the one a single invocation at the time of the second would have left:
    the only column that tells them apart is the [updated_at] stamp of the
    review, and with the same clock reading nothing does. *)
Theorem store_findings_idempotent db reviewId fs synthesis t1 t2 :
  let once := Agent.store_findings db reviewId fs synthesis t1 in
  let twice := Agent.store_findings once reviewId fs synthesis t2 in
  Agent.findings twice = Agent.findings once ∧
  size (Agent.findings twice) = size (Agent.findings once) ∧
  Agent.remediations twice = Agent.remediations once ∧
  (∀ i, ReviewRow.stats <$> Agent.reviews twice !! i
        = ReviewRow.stats <$> Agent.reviews once !! i) ∧
  twice = Agent.store_findings db reviewId fs synthesis t2 ∧
  Agent.store_findings once reviewId fs synthesis t1 = once.
Proof.
  intros once twice.
  assert (Agent.findings twice = Agent.findings once) as Hfindings.
  { unfold twice, once, Agent.store_findings; simpl.
    apply insert_findings_absorb. }
  split_and!.
  - exact Hfindings.
  - by rewrite Hfindings.
  - reflexivity.
  - intros i. unfold twice, once. rewrite !store_findings_review.
    case_decide as Hi; [|done].
    rewrite decide_True by done.
    by destruct (Agent.reviews db !! reviewId).
  - apply store_findings_twice.
  - apply store_findings_twice.
Qed.

(** ** The noise-reduction percentage *)

Lemma set_stats_consistent totalRaw fs summary now r :
  let s := Spec.runSynthesisStage totalRaw fs summary in
  noise_consistent
    (ReviewRow.set_stats (Synthesis.totalRaw s) (Agent.reachableCount fs)
       (Synthesis.noiseReductionPercent s) now r).
Proof.
  unfold noise_consistent, Spec.runSynthesisStage, Spec.noise_reduction; simpl.
  split; intros Hraw; case_decide; (done || lia).
Qed.

Lemma set_status_consistent s stage now r :
  noise_consistent r → noise_consistent (ReviewRow.set_status s stage now r).
Proof. by destruct r. Qed.

Lemma set_started_consistent instance now r :
  noise_consistent r → noise_consistent (ReviewRow.set_started instance now r).
Proof. by destruct r. Qed.

(** In every store the service can be in, the statistics of every review
    agree. *)
Lemma reachable_noise_consistent db :
  reachable db →
  ∀ i r, Agent.reviews db !! i = Some r → noise_consistent r.
Proof.
  induction 1 as [ | db reviewId userId code language instance now1 now2 _ IH
                   | db reviewId status stage now _ IH
                   | db reviewId totalRaw fs summary now _ IH
                   | db reviewId rs _ IH
                   | db reviewId findingIds now _ IH ]; intros i r Hr.
  - unfold Agent.empty in Hr; simpl in Hr. by rewrite lookup_empty in Hr.
  - unfold Agent.submit_review in Hr.
    destruct (Agent.reviews db !! reviewId) eqn:Hold; [by eapply IH|].
    simpl in Hr. apply lookup_alter_Some in Hr as [[-> (x & Hx & ->)] | [Hne Hr]].
    + rewrite lookup_insert_eq in Hx. injection Hx as <-.
      apply set_started_consistent. by split.
    + rewrite lookup_insert_ne in Hr by done. by eapply IH.
  - simpl in Hr. apply lookup_alter_Some in Hr as [[-> (x & Hx & ->)] | [_ Hr]].
    + apply set_status_consistent. by eapply IH.
    + by eapply IH.
  - rewrite store_findings_review in Hr. case_decide as Hi; [|by eapply IH].
    destruct (Agent.reviews db !! reviewId) as [x|]; [|done].
    injection Hr as <-. apply (set_stats_consistent totalRaw fs summary).
  - by eapply IH.
  - unfold Agent.approve_findings in Hr.
    destruct (Agent.reviews db !! reviewId); by eapply IH.
Qed.

(** C1: the persisted noise-reduction percentage of every review is
    (raw − filtered) / raw × 100 when its raw count is positive and 0 when
    its raw count is 0; and store-findings overwrites the raw count, the
    filtered count and the percentage of the review from its arguments, the
    filtered count being the number of findings with [isReachable] true: the
    values it leaves do not depend on the values it finds. *)
Theorem noise_reduction_percent_recomputed db reviewId r :
  reachable db →
  Agent.reviews db !! reviewId = Some r →
  let raw := ReviewRow.total_findings_raw r in
  let filtered := ReviewRow.total_findings_filtered r in
  (0 < raw →
   ReviewRow.noise_reduction_percent r
   = (Qc_of_Z (raw - filtered) / Qc_of_Z raw * Qc_of_Z 100)%Qc) ∧
  (raw = 0 → ReviewRow.noise_reduction_percent r = 0%Qc) ∧
  ∀ fs synthesis now,
    Agent.reviews (Agent.store_findings db reviewId fs synthesis now) !! reviewId
    = Some (ReviewRow.set_stats (Synthesis.totalRaw synthesis)
              (Z.of_nat (length (filter (λ f, Finding.isReachable f = true) fs)))
              (Synthesis.noiseReductionPercent synthesis) now r).
Proof.
  intros Hdb Hr raw filtered.
  destruct (reachable_noise_consistent db Hdb reviewId r Hr) as [Hpos Hzero].
  split_and!; [exact Hpos | exact Hzero |].
  intros fs synthesis now. rewrite store_findings_review.
  rewrite decide_True by done. by rewrite Hr.
Qed.

(** ** Reading findings back *)

Lemma roundtrip_isReachable reviewId f :
  Finding.isReachable (Agent.mapFindingFromDb (Agent.finding_row reviewId f))
  = Finding.isReachable f.
Proof. simpl. by destruct (Finding.isReachable f). Qed.

Lemma truthy_str_idemp x : truthy_str (truthy_str x) = truthy_str x.
Proof.
  destruct x as [s|]; [|done]. simpl.
  case_decide as Hs; [done|]. simpl. by rewrite decide_False.
Qed.

Lemma roundtrip_has_reason reviewId f :
  Spec.has_reason (Agent.mapFindingFromDb (Agent.finding_row reviewId f))
  = Spec.has_reason f.
Proof.
  unfold Spec.has_reason; simpl. rewrite truthy_str_idemp.
  destruct (Reachability.falsePositiveReason _) as [s|]; [|done]. simpl.
  case_decide as Hs.
  - by rewrite bool_decide_eq_true_2.
  - done.
Qed.

Lemma roundtrip_has_path reviewId f :
  Spec.has_path (Agent.mapFindingFromDb (Agent.finding_row reviewId f))
  = Spec.has_path f.
Proof.
  unfold Spec.has_path; simpl.
  by destruct (Reachability.dataFlowPath _) as [[|n p]|].
Qed.

Lemma roundtrip_verdict reviewId f :
  Spec.verdict_consistent f →
  Spec.verdict_consistent (Agent.mapFindingFromDb (Agent.finding_row reviewId f)).
Proof.
  unfold Spec.verdict_consistent.
  by rewrite roundtrip_isReachable, roundtrip_has_reason, roundtrip_has_path.
Qed.

(** What [get_findings] returns: the rows of the table that pass the WHERE
    clause, each mapped by [mapFindingFromDb]. *)
Lemma get_findings_elem db reviewId includeFiltered f :
  f ∈ Agent.resp_findings (Agent.get_findings db reviewId includeFiltered) ↔
  ∃ i row, Agent.findings db !! i = Some row
           ∧ Agent.where_clause reviewId (default false includeFiltered) row
           ∧ f = Agent.mapFindingFromDb row.
Proof.
  unfold Agent.get_findings, Agent.select_findings; simpl.
  rewrite list_elem_of_fmap. split.
  - intros (row & -> & Hrow). rewrite merge_sort_Permutation in Hrow.
    apply list_elem_of_filter in Hrow as [Hwhere Hrow].
    apply list_elem_of_fmap in Hrow as ([i row'] & -> & Hin).
    apply elem_of_map_to_list in Hin. by exists i, row'.
  - intros (i & row & Hrow & Hwhere & ->). exists row. split; [done|].
    rewrite merge_sort_Permutation. apply list_elem_of_filter. split; [done|].
    apply list_elem_of_fmap. exists (i, row). split; [done|].
    by apply elem_of_map_to_list.
Qed.

Lemma store_findings_consistent db reviewId fs synthesis now :
  findings_consistent db →
  Forall Spec.verdict_consistent fs →
  findings_consistent (Agent.store_findings db reviewId fs synthesis now).
Proof.
  intros Hdb Hfs i row Hrow. simpl in Hrow.
  apply insert_findings_lookup in Hrow as [Hold | (f & Hf & _ & ->)].
  - by eapply Hdb.
  - apply roundtrip_verdict. rewrite Forall_forall in Hfs. by apply Hfs.
Qed.

(** C2: a finding of the Reachability Filter has [isReachable] false exactly
    when its [falsePositiveReason] is non-empty, and [isReachable] true
    exactly when its [dataFlowPath] is non-empty; store-findings and
    get_findings preserve this.  Storing findings that satisfy it in a store
    whose findings satisfy it leaves such a store, everything get_findings
    then returns satisfies it, and a finding read back from the row written
    for it has the verdict, the reason and the path it was stored with, up
    to an empty reason being dropped and a missing path being read as an
    empty one. *)
Theorem verdict_survives_store_and_read db reviewId fs synthesis now includeFiltered :
  findings_consistent db →
  Forall Spec.verdict_consistent fs →
  let db' := Agent.store_findings db reviewId fs synthesis now in
  findings_consistent db' ∧
  Forall Spec.verdict_consistent
    (Agent.resp_findings (Agent.get_findings db' reviewId includeFiltered)) ∧
  Forall (λ f,
      let f' := Agent.mapFindingFromDb (Agent.finding_row reviewId f) in
      Finding.isReachable f' = Finding.isReachable f
      ∧ Spec.has_reason f' = Spec.has_reason f
      ∧ Spec.has_path f' = Spec.has_path f) fs.
Proof.
  intros Hdb Hfs db'.
  assert (findings_consistent db') as Hdb'
    by by apply store_findings_consistent.
  split_and!.
  - exact Hdb'.
  - apply Forall_forall. intros f Hf.
    apply get_findings_elem in Hf as (i & row & Hrow & _ & ->).
    by eapply Hdb'.
  - apply Forall_forall. intros f _. cbv zeta.
    by rewrite roundtrip_isReachable, roundtrip_has_reason, roundtrip_has_path.
Qed.

(** ** The order and the selection of [get_findings] *)

#[local] Instance by_severity_trans : Transitive Agent.by_severity.
Proof. intros a b c. unfold Agent.by_severity. lia. Qed.

#[local] Instance by_severity_total : Total Agent.by_severity.
Proof. intros a b. unfold Agent.by_severity. lia. Qed.

Lemma select_findings_sorted db reviewId includeFiltered :
  StronglySorted Agent.by_severity
    (Agent.select_findings db reviewId includeFiltered).
Proof. unfold Agent.select_findings. apply StronglySorted_merge_sort; apply _. Qed.

(** C9: the findings that get_findings returns are ordered by severity rank,
    critical first: a finding never comes before one of a smaller rank, where
    critical has rank 1, high 2, medium 3, low 4 and every other severity 5.
    Nothing is said about findings of equal rank. *)
Theorem get_findings_ordered_by_severity db reviewId includeFiltered :
  StronglySorted
    (λ a b, (Agent.severity_rank (Finding.severity a)
             ≤ Agent.severity_rank (Finding.severity b))%nat)
    (Agent.resp_findings (Agent.get_findings db reviewId includeFiltered)) ∧
  Agent.severity_rank "critical" = 1%nat ∧
  Agent.severity_rank "high" = 2%nat ∧
  Agent.severity_rank "medium" = 3%nat ∧
  Agent.severity_rank "low" = 4%nat ∧
  ∀ s, s ∉ ["critical"; "high"; "medium"; "low"] → Agent.severity_rank s = 5%nat.
Proof.
  split_and!; try reflexivity.
  - unfold Agent.get_findings; simpl.
    apply (StronglySorted_fmap _ Agent.by_severity);
      [|apply select_findings_sorted].
    by intros a b.
  - intros s Hs. unfold Agent.severity_rank.
    repeat (case_decide; [subst s; exfalso; apply Hs; set_solver|]).
    reflexivity.
Qed.

(** C10: with [includeFiltered] omitted or false, get_findings returns the
    findings of the review whose [is_reachable] column is 1 and no other, so
    each of them has [isReachable] true and a finding stored with
    [isReachable] false is left out; with [includeFiltered] true it returns
    all the findings of the review.  In both cases each selected row is
    returned once. *)
Theorem get_findings_selection db reviewId :
  Agent.get_findings db reviewId None = Agent.get_findings db reviewId (Some false) ∧
  (∀ f, f ∈ Agent.resp_findings (Agent.get_findings db reviewId None) ↔
        ∃ i row, Agent.findings db !! i = Some row
                 ∧ FindingRow.review_id row = reviewId
                 ∧ FindingRow.is_reachable row = 1
                 ∧ f = Agent.mapFindingFromDb row) ∧
  Forall (λ f, Finding.isReachable f = true)
    (Agent.resp_findings (Agent.get_findings db reviewId None)) ∧
  (∀ f, f ∈ Agent.resp_findings (Agent.get_findings db reviewId (Some true)) ↔
        ∃ i row, Agent.findings db !! i = Some row
                 ∧ FindingRow.review_id row = reviewId
                 ∧ f = Agent.mapFindingFromDb row) ∧
  (∀ includeFiltered,
     Agent.resp_findings (Agent.get_findings db reviewId includeFiltered)
     ≡ₚ Agent.mapFindingFromDb <$>
          filter (λ row, FindingRow.review_id row = reviewId
                         ∧ (default false includeFiltered = true
                            ∨ FindingRow.is_reachable row = 1))
            (map_to_list (Agent.findings db)).*2).
Proof.
  split_and!.
  - reflexivity.
  - intros f. rewrite get_findings_elem. unfold Agent.where_clause; simpl. split.
    + intros (i & row & Hrow & [Hrev [? | Hone]] & ->); [done|]. by exists i, row.
    + intros (i & row & Hrow & Hrev & Hone & ->). exists i, row. split_and!; auto.
  - apply Forall_forall. intros f Hf.
    apply get_findings_elem in Hf as (i & row & _ & [_ [?| Hone]] & ->); [done|].
    simpl. by rewrite bool_decide_eq_true_2.
  - intros f. rewrite get_findings_elem. unfold Agent.where_clause; simpl. split.
    + intros (i & row & Hrow & [Hrev _] & ->). by exists i, row.
    + intros (i & row & Hrow & Hrev & ->). exists i, row. split_and!; auto.
  - intros includeFiltered. unfold Agent.get_findings, Agent.select_findings; simpl.
    by rewrite merge_sort_Permutation.
Qed.

End store_facts.

(** * Facts about the task adapters *)

Section stage_facts.
Context `{JsRuntime}.
Implicit Types (x y v : json) (ent : Stages.Entropy) (out items : list json).

Lemma field_app key (l1 l2 : list (string * json)) :
  Stages.field key (l1 ++ l2)
  = match Stages.field key l2 with
    | Some w => Some w
    | None => Stages.field key l1
    end.
Proof.
  induction l1 as [|[k v] l1 IH]; simpl.
  - by destruct (Stages.field key l2).
  - rewrite IH. by destruct (Stages.field key l2).
Qed.

(** Reading a property of a value that is not [null]. *)
Lemma get_prop x key o : Stages.get x key = Ok o → o = Stages.prop key x.
Proof. destruct x; simpl; congruence. Qed.

(** [map] keeps the positions: the item at an index of the result is the
    callback's value for the item at that index of the array. *)
Lemma js_map_lookup f i items out :
  Stages.js_map f i items = Ok out →
  length out = length items ∧
  ∀ k y, out !! k = Some y →
         ∃ x, items !! k = Some x ∧ f (i + k)%nat x = Ok y.
Proof.
  revert i out. induction items as [|x items IH]; intros i out Hmap; simpl in Hmap.
  - injection Hmap as <-. split; [done|]. intros k y Hk. by destruct k.
  - destruct (f i x) as [y0|e] eqn:Hx; [|done].
    destruct (Stages.js_map f (S i) items) as [ys|e] eqn:Hrest; [|done].
    injection Hmap as <-. destruct (IH _ _ Hrest) as [Hlen Hitems].
    split; [simpl; by rewrite Hlen|].
    intros [|k] y Hk; simpl in Hk.
    + injection Hk as <-. exists x. by rewrite Nat.add_0_r.
    + destruct (Hitems k y Hk) as (x' & Hx' & Hy).
      exists x'. split; [done|]. by rewrite Nat.add_succ_r.
Qed.

Lemma dependency_finding_props ent k x y :
  Stages.dependency_finding ent k x = Ok y →
  Stages.prop "id" y
  = Some (Stages.or_else (Stages.prop "id" x) (JStr (Stages.freshId ent "dep" k)))
  ∧ Stages.prop "category" y = Some (JStr "dependency").
Proof.
  unfold Stages.dependency_finding.
  destruct (Stages.get x "id") as [i|e] eqn:Hid; [|done].
  apply get_prop in Hid as ->. intros [= <-]. simpl.
  by rewrite !field_app.
Qed.

Lemma secrets_finding_props ent k x y :
  Stages.secrets_finding ent k x = Ok y →
  Stages.prop "id" y
  = Some (Stages.or_else (Stages.prop "id" x) (JStr (Stages.freshId ent "sec" k)))
  ∧ Stages.prop "category" y = Some (JStr "secrets").
Proof.
  unfold Stages.secrets_finding.
  destruct (Stages.get x "id") as [i|e] eqn:Hid; [|done].
  apply get_prop in Hid as ->. intros [= <-]. simpl.
  by rewrite !field_app.
Qed.

Lemma auth_finding_props ent k x y :
  Stages.auth_finding ent k x = Ok y →
  Stages.prop "id" y
  = Some (Stages.or_else (Stages.prop "id" x) (JStr (Stages.freshId ent "auth" k)))
  ∧ Stages.prop "category" y = Some (JStr "auth").
Proof.
  unfold Stages.auth_finding.
  destruct (Stages.get x "id") as [i|e] eqn:Hid; [|done].
  apply get_prop in Hid as ->. intros [= <-]. simpl.
  by rewrite !field_app.
Qed.

Lemma injection_finding_props ent k x y :
  Stages.injection_finding ent k x = Ok y →
  Stages.prop "id" y
  = Some (Stages.or_else (Stages.prop "id" x) (JStr (Stages.freshId ent "inj" k)))
  ∧ Stages.prop "category" y
    = Some (Stages.or_else (Stages.prop "category" x) (JStr "injection")).
Proof.
  unfold Stages.injection_finding.
  destruct (Stages.get x "id") as [i|e] eqn:Hid; [|done].
  destruct (Stages.get x "category") as [c|e] eqn:Hcat; [|done].
  apply get_prop in Hid as ->. apply get_prop in Hcat as ->.
  intros [= <-]. simpl. by rewrite !field_app.
Qed.

(** ** Generated ids *)

Lemma string_app_cons ch (a b : string) : String ch a +:+ b = String ch (a +:+ b).
Proof. reflexivity. Qed.

Lemma string_app_nil (b : string) : EmptyString +:+ b = b.
Proof. reflexivity. Qed.

Lemma string_app_assoc (a b c : string) : (a +:+ b) +:+ c = a +:+ (b +:+ c).
Proof.
  induction a as [|ch a IH]; [done|].
  rewrite !string_app_cons. by rewrite IH.
Qed.

Lemma dashless_pretty_N_go n s :
  Stages.dashless s → Stages.dashless (pretty_N_go n s).
Proof.
  revert s. induction (N.lt_wf_0 n) as [n _ IH]; intros s Hs.
  assert (n = 0 ∨ 0 < n)%N as [->|Hpos] by lia.
  - by rewrite pretty_N_go_0.
  - rewrite pretty_N_go_step by done. apply IH.
    + by apply N.div_lt.
    + split; [|done]. unfold pretty_N_char. by repeat case_match.
Qed.

Lemma dashless_pretty (k : nat) : Stages.dashless (pretty k).
Proof.
  unfold pretty, pretty_nat, pretty, pretty_N. case_decide.
  - by split.
  - by apply dashless_pretty_N_go.
Qed.

(** Two texts that agree and each start with a dashless word followed by a
    dash start with the same word. *)
Lemma dashless_word_inj (a b r1 r2 : string) :
  Stages.dashless a → Stages.dashless b →
  a +:+ "-" +:+ r1 = b +:+ "-" +:+ r2 → a = b.
Proof.
  revert b. induction a as [|c a IH]; intros [|d b] Ha Hb Heq;
    rewrite ?string_app_cons, ?string_app_nil in Heq; simpl in *.
  - done.
  - injection Heq as Hc _. destruct Hb as [Hd _]. by subst d.
  - injection Heq as Hc _. destruct Ha as [Hc' _]. by subst c.
  - injection Heq as -> Heq. f_equal. apply IH; tauto.
Qed.

(** Within one call of an adapter, the ids generated at two different
    indices differ, whatever the clock and the random source give. *)
Lemma freshId_inj ent task k1 k2 :
  Stages.freshId ent task k1 = Stages.freshId ent task k2 → k1 = k2.
Proof.
  unfold Stages.freshId, Stages.generateId.
  assert (∀ k : nat, task +:+ "-" +:+ pretty k ≠ EmptyString) as Hne.
  { intros k. by destruct task. }
  rewrite !decide_False by apply Hne.
  rewrite !string_app_assoc. intros Heq.
  apply (inj (String.app task)) in Heq.
  rewrite !string_app_cons, !string_app_nil in Heq. injection Heq as Heq.
  apply dashless_word_inj in Heq; [|apply dashless_pretty..].
  by apply (inj (@pretty nat _)) in Heq.
Qed.

(** A generated id is scoped by the task and the index. *)
Lemma freshId_shape ent task k :
  Stages.freshId ent task k
  = task +:+ "-" +:+ pretty k +:+ "-" +:+ (ent k).1 +:+ "-" +:+ (ent k).2.
Proof.
  unfold Stages.freshId, Stages.generateId.
  rewrite decide_False by by destruct task.
  by rewrite !string_app_assoc.
Qed.

(** ** What the adapters return *)

(** Case analysis on the parsed response inside an adapter. *)
Ltac parse_cases response :=
  let Hparse := fresh "Hparse" in
  destruct (Stages.parseJsonResponse response) as [[[]|] ?] eqn:Hparse;
  simpl in *.

(** From a successful [map] to the item behind a returned finding. *)
Ltac map_item Hmap Hk :=
  let x := fresh "x" in
  let Hx := fresh "Hx" in
  let Hy := fresh "Hy" in
  apply js_map_lookup in Hmap as [_ Hmap];
  destruct (Hmap _ _ Hk) as (x & Hx & Hy);
  exists x; split; [exact Hx|].

Lemma dependency_stage_item response ent out k y :
  (Stages.runDependencyStage (Ok response) ent).1 = Ok out →
  out !! k = Some y →
  ∃ x, Stages.items_of response !! k = Some x
       ∧ Stages.dependency_finding ent k x = Ok y.
Proof.
  unfold Stages.runDependencyStage, Stages.items_of.
  parse_cases response; intros Hout Hk; try done.
  by map_item Hout Hk.
Qed.

Lemma secrets_stage_item response ent out k y :
  (Stages.runSecretsStage (Ok response) ent).1 = Ok out →
  out !! k = Some y →
  ∃ x, Stages.items_of response !! k = Some x
       ∧ Stages.secrets_finding ent k x = Ok y.
Proof.
  unfold Stages.runSecretsStage, Stages.items_of.
  parse_cases response;
    try (destruct (Stages.js_map _ _ _) as [ys|e] eqn:Hmap; simpl);
    intros [= <-] Hk; try done.
  by map_item Hmap Hk.
Qed.

Lemma auth_stage_item response ent out k y :
  (Stages.runAuthStage (Ok response) ent).1 = Ok out →
  out !! k = Some y →
  ∃ x, Stages.items_of response !! k = Some x
       ∧ Stages.auth_finding ent k x = Ok y.
Proof.
  unfold Stages.runAuthStage, Stages.items_of.
  parse_cases response;
    try (destruct (Stages.js_map _ _ _) as [ys|e] eqn:Hmap; simpl);
    intros [= <-] Hk; try done.
  by map_item Hmap Hk.
Qed.

Lemma injection_stage_item triage response ent out k y :
  (Stages.runInjectionStage triage (Ok response) ent).1 = Ok out →
  out !! k = Some y →
  ∃ x, Stages.items_of response !! k = Some x
       ∧ Stages.injection_finding ent k x = Ok y.
Proof.
  unfold Stages.runInjectionStage, Stages.items_of.
  destruct (_ && _); [by intros [= <-] ?|].
  parse_cases response;
    try (destruct (Stages.js_map _ _ _) as [ys|e] eqn:Hmap; simpl);
    intros [= <-] Hk; try done.
  by map_item Hmap Hk.
Qed.

(** C8, as the code has it: every finding that an adapter returns carries
    the id of the response item it comes from when that id is present and
    not empty, and otherwise an id generated for the task and the index,
    which differs from the id generated at any other index; the dependency
    and secrets adapters (and the auth adapter as the spec describes it) set
    its category to the task's own, whereas the injection adapter keeps the
    category of the response item when it is present and not empty, and sets
    [injection] only when the item carries none. *)
Theorem adapter_ids_and_categories triage response ent out k y :
  ((Stages.runDependencyStage (Ok response) ent).1 = Ok out →
   out !! k = Some y →
   ∃ x, Stages.items_of response !! k = Some x
     ∧ Stages.prop "id" y
       = Some (Stages.or_else (Stages.prop "id" x)
                 (JStr (Stages.freshId ent "dep" k)))
     ∧ Stages.prop "category" y = Some (JStr "dependency")) ∧
  ((Stages.runSecretsStage (Ok response) ent).1 = Ok out →
   out !! k = Some y →
   ∃ x, Stages.items_of response !! k = Some x
     ∧ Stages.prop "id" y
       = Some (Stages.or_else (Stages.prop "id" x)
                 (JStr (Stages.freshId ent "sec" k)))
     ∧ Stages.prop "category" y = Some (JStr "secrets")) ∧
  ((Stages.runAuthStage (Ok response) ent).1 = Ok out →
   out !! k = Some y →
   ∃ x, Stages.items_of response !! k = Some x
     ∧ Stages.prop "id" y
       = Some (Stages.or_else (Stages.prop "id" x)
                 (JStr (Stages.freshId ent "auth" k)))
     ∧ Stages.prop "category" y = Some (JStr "auth")) ∧
  ((Stages.runInjectionStage triage (Ok response) ent).1 = Ok out →
   out !! k = Some y →
   ∃ x, Stages.items_of response !! k = Some x
     ∧ Stages.prop "id" y
       = Some (Stages.or_else (Stages.prop "id" x)
                 (JStr (Stages.freshId ent "inj" k)))
     ∧ Stages.prop "category" y
       = Some (Stages.or_else (Stages.prop "category" x) (JStr "injection"))) ∧
  (∀ task k', Stages.freshId ent task k = Stages.freshId ent task k' → k = k') ∧
  (∀ task, Stages.freshId ent task k
           = task +:+ "-" +:+ pretty k +:+ "-" +:+ (ent k).1 +:+ "-" +:+ (ent k).2).
Proof.
  split_and!.
  - intros Hout Hk.
    destruct (dependency_stage_item _ _ _ _ _ Hout Hk) as (x & Hx & Hy).
    exists x. split; [done|]. by apply dependency_finding_props.
  - intros Hout Hk.
    destruct (secrets_stage_item _ _ _ _ _ Hout Hk) as (x & Hx & Hy).
    exists x. split; [done|]. by apply secrets_finding_props.
  - intros Hout Hk.
    destruct (auth_stage_item _ _ _ _ _ Hout Hk) as (x & Hx & Hy).
    exists x. split; [done|]. by apply auth_finding_props.
  - intros Hout Hk.
    destruct (injection_stage_item _ _ _ _ _ _ Hout Hk) as (x & Hx & Hy).
    exists x. split; [done|]. by apply injection_finding_props.
  - intros task k'. apply freshId_inj.
  - intros task. apply freshId_shape.
Qed.

(** C7 on the adapters: when the content of the response is malformed
    output, the injection and the secrets adapter return the empty list, and
    the dependency adapter throws. *)
Theorem dependency_stage_propagates_malformed_output triage response ent :
  Stages.malformed response →
  (∃ e, (Stages.runDependencyStage (Ok response) ent).1 = Throw e) ∧
  (Stages.runSecretsStage (Ok response) ent).1 = Ok [] ∧
  (Stages.runInjectionStage triage (Ok response) ent).1 = Ok [].
Proof.
  unfold Stages.malformed, Stages.runDependencyStage, Stages.runSecretsStage,
    Stages.runInjectionStage.
  destruct (_ && _); parse_cases response; intros Hbad; try done; eauto.
Qed.

End stage_facts.

(** * Facts about the pipeline *)

Section run_facts.
Context (env : Workflow.Env) (reviewId : string).
Implicit Types (st : Workflow.St) (fs : list Finding.t) (syn : Synthesis.t).

(** ** Steps with retries *)

Lemma invocations_silent n st :
  Workflow.invocations n (mret ()) st = (Ok (), st).
Proof. induction n as [|n IH]; [done|]. simpl. apply IH. Qed.

Lemma invocations_emit n e st :
  Workflow.invocations n (Workflow.emit e) st
  = (Ok (), Workflow.mkSt (Workflow.db st)
              (Workflow.trace st ++ replicate n e)).
Proof.
  revert st. induction n as [|n IH]; intros st.
  - simpl. rewrite app_nil_r. by destruct st.
  - change (Workflow.invocations (S n) (Workflow.emit e) st)
      with (Workflow.invocations n (Workflow.emit e)
              (Workflow.mkSt (Workflow.db st) (Workflow.trace st ++ [e]))).
    rewrite IH. simpl. by rewrite <-app_assoc.
Qed.

(** A step whose callback leaves no event: the step is entered and yields
    what its last attempt gave, however many attempts there were. *)
Lemma step_silent {A} name limit failed (settled : result A) st :
  Workflow.step_do_retrying name limit failed (mret ()) settled st
  = (settled, Workflow.mkSt (Workflow.db st)
                (Workflow.trace st ++ [Workflow.Step name])).
Proof.
  unfold Workflow.step_do_retrying, mbind, Workflow.M_bind, Workflow.emit.
  by rewrite invocations_silent.
Qed.

(** A step whose callback leaves an event leaves it once for each attempt:
    once, and once more for each failed attempt that the platform repeats. *)
Lemma step_calls {A} name limit failed e (settled : result A) st :
  Workflow.step_do_retrying name limit failed
    (λ s, (Ok (), Workflow.mkSt (Workflow.db s) (Workflow.trace s ++ [e])))
    settled st
  = (settled,
     Workflow.mkSt (Workflow.db st)
       (Workflow.trace st
        ++ Workflow.Step name :: replicate (S (min failed limit)) e)).
Proof.
  unfold Workflow.step_do_retrying, mbind, Workflow.M_bind.
  change (Workflow.emit (Workflow.Step name) st)
    with (Ok (), Workflow.mkSt (Workflow.db st)
                   (Workflow.trace st ++ [Workflow.Step name])).
  cbv beta iota.
  rewrite (invocations_emit (S (min failed limit)) e).
  cbn [Workflow.db Workflow.trace]. by rewrite <-app_assoc.
Qed.

(** Unfold the monad of the run. *)
Ltac run_steps :=
  repeat (first [rewrite step_silent | rewrite step_calls]; simpl).

Ltac run_unfold :=
  unfold Workflow.run, Workflow.analyse, Workflow.resume, Workflow.promise_all4,
    Workflow.waitForEvent, Workflow.step_do, Workflow.updateReviewStatus,
    Workflow.storeFindings, Workflow.storeRemediations, Workflow.emit,
    Workflow.await, Workflow.agent, mbind, mret, Workflow.M_bind, Workflow.M_ret;
  simpl; run_steps.

(** The run is the analysis followed, when it succeeds, by the part after
    the suspension point. *)
Lemma run_split st :
  Workflow.run env reviewId st
  = match Workflow.analyse env reviewId st with
    | (Ok (fs, syn), st1) => Workflow.resume env reviewId fs syn st1
    | (Throw e, st1) => (Throw e, st1)
    end.
Proof.
  unfold Workflow.run, mbind, Workflow.M_bind.
  by destruct (Workflow.analyse env reviewId st) as [[[fs syn]|e] st1].
Qed.

(** A run that reaches the suspension point: the five stages before the
    filter all produced a result, the filter and the synthesis did, the
    findings are stored and the status update for [awaiting_approval] is
    made. *)
Lemma analyse_reaches db fs syn st1 :
  Workflow.analyse env reviewId (Workflow.mkSt db []) = (Ok (fs, syn), st1) →
  ∃ tri dep auth inj sec,
    Workflow.triage_outcome env = Ok tri
    ∧ Workflow.dependency_outcome env tri = Ok dep
    ∧ Workflow.auth_outcome env tri = Ok auth
    ∧ Workflow.injection_outcome env tri = Ok inj
    ∧ Workflow.secrets_outcome env = Ok sec
    ∧ Workflow.reachability_outcome env (dep ++ auth ++ inj ++ sec)
        (Triage.dataFlowMap tri) = Ok fs
    ∧ Workflow.synthesis_outcome env (length (dep ++ auth ++ inj ++ sec)) fs
      = Ok syn
    ∧ Workflow.db st1
      = Agent.update_status
          (Agent.store_findings
             (Agent.update_status
                (Agent.update_status db reviewId "analyzing" (Some "dependency")
                   (Workflow.clock env "update-status-analyzing"))
                reviewId "filtering" (Some "reachability")
                (Workflow.clock env "update-status-filtering"))
             reviewId fs syn (Workflow.clock env "store-findings"))
          reviewId "awaiting_approval" (Some "approval")
          (Workflow.clock env "update-status-awaiting-approval")
    ∧ Workflow.trace st1
      = Workflow.Step <$>
          ["triage"; "update-status-analyzing"; "dependency-analysis";
           "auth-analysis"; "injection-analysis"; "secrets-analysis";
           "update-status-filtering"; "reachability-filter"; "synthesis";
           "store-findings"; "update-status-awaiting-approval"].
Proof.
  run_unfold.
  destruct (Workflow.triage_outcome env) as [tri|e] eqn:Htri; simpl; [|done].
  run_steps.
  destruct (Workflow.dependency_outcome env tri) as [dep|?] eqn:Hdep,
           (Workflow.auth_outcome env tri) as [auth|?] eqn:Hauth,
           (Workflow.injection_outcome env tri) as [inj|?] eqn:Hinj,
           (Workflow.secrets_outcome env) as [sec|?] eqn:Hsec; simpl; try done.
  run_steps.
  destruct (Workflow.reachability_outcome env _ _) as [fs'|?] eqn:Hfilter;
    simpl; [|done].
  run_steps.
  destruct (Workflow.synthesis_outcome env _ _) as [syn'|?] eqn:Hsyn;
    simpl; [|done].
  intros [= <- <- <-]. exists tri, dep, auth, inj, sec. by split_and!.
Qed.

(** The status column after a status update. *)
Lemma status_of_update_status db i status stage now :
  status_of (Agent.update_status db reviewId status stage now) i
  = if decide (reviewId = i)
    then (λ _, status) <$> status_of db i
    else status_of db i.
Proof.
  unfold status_of, Agent.update_status; simpl. rewrite lookup_alter.
  case_decide as Hi; [subst i|done]. by destruct (Agent.reviews db !! reviewId).
Qed.

Lemma error_of_update_status db i status stage now :
  ReviewRow.error <$> Agent.reviews (Agent.update_status db reviewId status stage now) !! i
  = ReviewRow.error <$> Agent.reviews db !! i.
Proof.
  unfold Agent.update_status; simpl. rewrite lookup_alter.
  case_decide as Hi; [subst i|done]. by destruct (Agent.reviews db !! reviewId).
Qed.

Lemma status_of_store_findings db i fs syn now :
  status_of (Agent.store_findings db reviewId fs syn now) i = status_of db i.
Proof.
  unfold status_of. rewrite store_findings_review.
  case_decide as Hi; [subst i|done]. by destruct (Agent.reviews db !! reviewId).
Qed.

(** *** After the suspension point *)

Lemma resume_timeout fs syn st :
  Workflow.approval_outcome env = None →
  Workflow.resume env reviewId fs syn st
  = (Throw (Error "waitForEvent timed out"),
     Workflow.mkSt (Workflow.db st)
       (Workflow.trace st ++ [Workflow.Step "approval"])).
Proof. intros Hnone. run_unfold. by rewrite Hnone. Qed.

Lemma resume_declined fs syn st ev :
  Workflow.approval_outcome env = Some ev →
  Workflow.approved ev = false ∨ Workflow.findingIds ev = [] →
  Workflow.resume env reviewId fs syn st
  = (Ok (Workflow.mkResult "completed" syn []),
     Workflow.mkSt
       (Agent.update_status (Workflow.db st) reviewId "completed" None
          (Workflow.clock env "update-status-completed-no-remediation"))
       (Workflow.trace st ++
        [Workflow.Step "approval";
         Workflow.Step "update-status-completed-no-remediation"])).
Proof.
  intros Hev Hno. run_unfold. rewrite Hev; simpl.
  assert (negb (Workflow.approved ev)
          || bool_decide (length (Workflow.findingIds ev) = 0%nat) = true) as ->.
  { destruct Hno as [-> | ->]; [done|]. apply orb_true_r. }
  simpl. by rewrite <-app_assoc.
Qed.

Lemma resume_approved fs syn st ev :
  Workflow.approval_outcome env = Some ev →
  Workflow.approved ev = true →
  Workflow.findingIds ev ≠ [] →
  let chosen := filter (Workflow.is_approved ev) fs in
  let db1 :=
    Agent.update_status (Workflow.db st) reviewId "remediating"
      (Some "remediation") (Workflow.clock env "update-status-remediating") in
  let called :=
    (Workflow.trace st ++
     [Workflow.Step "approval"; Workflow.Step "update-status-remediating";
      Workflow.Step "remediation"; Workflow.Remediate chosen]
     ++ replicate (min (Workflow.failed_attempts env "remediation") 2)
          (Workflow.Remediate chosen))%list in
  Workflow.resume env reviewId fs syn st
  = match Workflow.remediation_outcome env chosen with
    | Ok rs =>
        (Ok (Workflow.mkResult "completed" syn rs),
         Workflow.mkSt
           (Agent.update_status (Agent.store_remediations db1 reviewId rs)
              reviewId "completed" None
              (Workflow.clock env "update-status-completed"))
           (called ++ [Workflow.Step "store-remediations";
                       Workflow.Step "update-status-completed"]))
    | Throw e => (Throw e, Workflow.mkSt db1 called)
    end.
Proof.
  intros Hev Hyes Hids chosen db1 called. run_unfold. rewrite Hev; simpl.
  rewrite Hyes; simpl.
  rewrite bool_decide_eq_false_2 by by destruct (Workflow.findingIds ev).
  run_steps. subst called db1 chosen.
  destruct (Workflow.remediation_outcome env _); simpl;
    by rewrite <-?app_assoc.
Qed.

(** *** The fan-in *)

(** An event is not in a trace that is given explicitly. *)
Ltac not_in_trace :=
  let Hin := fresh "Hin" in
  unfold invoked; simpl; intros Hin;
  repeat (apply elem_of_cons in Hin as [Hin|Hin]; [discriminate Hin|]);
  by apply elem_of_nil in Hin.

(** Case analysis on the outcomes that the run consults from the filter on. *)
Ltac outcome_cases :=
  repeat match goal with
         | |- context [Workflow.reachability_outcome env ?a ?b] =>
             destruct (Workflow.reachability_outcome env a b) eqn:?; simpl;
             run_steps
         | |- context [Workflow.synthesis_outcome env ?a ?b] =>
             destruct (Workflow.synthesis_outcome env a b) eqn:?; simpl;
             run_steps
         | |- context [Workflow.approval_outcome env] =>
             destruct (Workflow.approval_outcome env) as [[[] []]|] eqn:?; simpl;
             run_steps
         | |- context [Workflow.remediation_outcome env ?a] =>
             destruct (Workflow.remediation_outcome env a) eqn:?; simpl;
             run_steps
         end.

(** C4: on an event with [approved] true and a non-empty [findingIds] list
    the remediation task is called, on every attempt of its step, with the
    findings of the filter that are reachable and named in the list, no more
    and no fewer; with the
    task as the spec describes it, the run returns one remediation for each
    of these findings and for no other, and stores them. *)
Theorem remediation_runs_over_approved_reachable db fs syn st1 ev :
  Workflow.analyse env reviewId (Workflow.mkSt db []) = (Ok (fs, syn), st1) →
  Workflow.approval_outcome env = Some ev →
  Workflow.approved ev = true →
  Workflow.findingIds ev ≠ [] →
  let out := Workflow.run env reviewId (Workflow.mkSt db []) in
  let chosen := filter (Workflow.is_approved ev) fs in
  (∀ f, f ∈ chosen ↔
        f ∈ fs ∧ Finding.isReachable f = true
        ∧ Finding.id f ∈ Workflow.findingIds ev) ∧
  invoked "remediation" (Workflow.trace out.2) ∧
  (∀ x, Workflow.Remediate x ∈ Workflow.trace out.2 ↔ x = chosen) ∧
  (∀ rs, Workflow.remediation_outcome env chosen = Ok rs →
         out.1 = Ok (Workflow.mkResult "completed" syn rs)
         ∧ Agent.remediations (Workflow.db out.2)
           = Agent.remediations
               (Agent.store_remediations (Workflow.db st1) reviewId rs)) ∧
  (∀ generate,
     Workflow.remediation_outcome env chosen
     = Ok (Spec.runRemediationStage generate reviewId chosen) →
     ∃ rs, out.1 = Ok (Workflow.mkResult "completed" syn rs)
           ∧ Remediation.findingId <$> rs = Finding.id <$> chosen
           ∧ Forall (λ r, Remediation.reviewId r = reviewId) rs).
Proof.
  intros Hanalyse Hev Hyes Hids out chosen. subst out.
  rewrite run_split, Hanalyse.
  apply analyse_reaches in Hanalyse
    as (tri & dep & auth & inj & sec & _ & _ & _ & _ & _ & _ & _ & Hdb & Htr).
  rewrite (resume_approved _ _ _ ev) by done. fold chosen. rewrite Htr.
  split_and!.
  - intros f. subst chosen. rewrite list_elem_of_filter.
    unfold Workflow.is_approved. tauto.
  - destruct (Workflow.remediation_outcome env chosen); simpl;
      apply list_elem_of_lookup; by exists 13%nat.
  - intros x.
    destruct (Workflow.failed_attempts env "remediation") as [|[|[|more]]];
      destruct (Workflow.remediation_outcome env chosen); simpl.
    all: split;
      [ intros Hin;
        repeat (apply elem_of_cons in Hin as [Hin|Hin];
                [first [discriminate Hin | by injection Hin]|]);
        by apply elem_of_nil in Hin
      | intros ->; apply list_elem_of_lookup; by exists 14%nat ].
  - intros rs ->. simpl. by split.
  - intros generate ->. simpl. eexists. split; [reflexivity|].
    unfold Spec.runRemediationStage. split.
    + rewrite <-list_fmap_compose. by apply list_fmap_ext.
    + apply Forall_fmap, Forall_forall. by intros f _.
Qed.

(** *** The stores that a run goes through *)

(** With the synthesis step as the spec describes it, a run takes a store
    the service can be in to a store the service can be in. *)
Lemma run_preserves_reachable st :
  (∀ n fs syn, Workflow.synthesis_outcome env n fs = Ok syn →
               ∃ summary, syn = Spec.runSynthesisStage n fs summary) →
  reachable (Workflow.db st) →
  reachable (Workflow.db (Workflow.run env reviewId st).2).
Proof.
  intros Hspec Hst. run_unfold.
  destruct (Workflow.triage_outcome env) as [tri|?]; simpl; [|done].
  run_steps.
  destruct (Workflow.dependency_outcome env tri),
           (Workflow.auth_outcome env tri),
           (Workflow.injection_outcome env tri),
           (Workflow.secrets_outcome env); simpl;
    try by apply reach_update_status.
  run_steps.
  outcome_cases;
    repeat first
      [ assumption
      | apply reach_update_status
      | apply reach_store_remediations
      | match goal with
        | Hsyn : Workflow.synthesis_outcome env _ _ = Ok _ |- _ =>
            apply Hspec in Hsyn as [? ->]
        end
      | apply reach_store_findings ].
Qed.

(** *** The fan-in, on the store that the callbacks address *)

Lemma run_fan_in db :
  let out := Workflow.run env reviewId (Workflow.mkSt db []) in
  let tr := Workflow.trace out.2 in
  (invoked "reachability-filter" tr →
   (∃ tri dep auth inj sec,
      Workflow.triage_outcome env = Ok tri
      ∧ Workflow.dependency_outcome env tri = Ok dep
      ∧ Workflow.auth_outcome env tri = Ok auth
      ∧ Workflow.injection_outcome env tri = Ok inj
      ∧ Workflow.secrets_outcome env = Ok sec)
   ∧ entered_before "dependency-analysis" "reachability-filter" tr
   ∧ entered_before "auth-analysis" "reachability-filter" tr
   ∧ entered_before "injection-analysis" "reachability-filter" tr
   ∧ entered_before "secrets-analysis" "reachability-filter" tr) ∧
  (∀ tri e,
     Workflow.triage_outcome env = Ok tri →
     Workflow.dependency_outcome env tri = Throw e
     ∨ Workflow.auth_outcome env tri = Throw e
     ∨ Workflow.injection_outcome env tri = Throw e
     ∨ Workflow.secrets_outcome env = Throw e →
     ¬ invoked "reachability-filter" tr
     ∧ ¬ invoked "synthesis" tr
     ∧ ∃ e', out.1 = Throw e'
             ∧ (Workflow.dependency_outcome env tri = Throw e'
                ∨ Workflow.auth_outcome env tri = Throw e'
                ∨ Workflow.injection_outcome env tri = Throw e'
                ∨ Workflow.secrets_outcome env = Throw e')).
Proof.
  intros out tr. subst tr out. run_unfold.
  destruct (Workflow.triage_outcome env) as [tri|e0] eqn:Htri; simpl.
  2: { split; [not_in_trace | by intros tri e [=]]. }
  run_steps.
  destruct (Workflow.dependency_outcome env tri) as [dep|?] eqn:Hdep,
           (Workflow.auth_outcome env tri) as [auth|?] eqn:Hauth,
           (Workflow.injection_outcome env tri) as [inj|?] eqn:Hinj,
           (Workflow.secrets_outcome env) as [sec|?] eqn:Hsec; simpl.
  2-16: split; [not_in_trace|]; intros tri' e' [= <-] _;
        split_and!; [ not_in_trace | not_in_trace | eexists; split; [done|tauto] ].
  run_steps. split.
  - intros _. split; [by exists tri, dep, auth, inj, sec|].
    outcome_cases;
      try destruct (Workflow.failed_attempts env "remediation") as [|[|[|more]]];
      simpl;
      (split_and!;
       [ exists 2%nat, 7%nat | exists 3%nat, 7%nat
       | exists 4%nat, 7%nat | exists 5%nat, 7%nat ];
       (split_and!; [lia | reflexivity | reflexivity])).
  - intros tri' e' [= <-] Hfail. exfalso.
    destruct Hfail as [Hf|[Hf|[Hf|Hf]]]; congruence.
Qed.

(** *** No failure is marked *)

Lemma marks_no_failure_refl db : marks_no_failure db db.
Proof. by intros i. Qed.

Lemma marks_no_failure_update_status db0 db status stage now :
  status ≠ "failed" →
  marks_no_failure db0 db →
  marks_no_failure db0 (Agent.update_status db reviewId status stage now).
Proof.
  intros Hstatus Hdb i. destruct (Hdb i) as [Hfailed Herror].
  rewrite status_of_update_status, error_of_update_status. split; [|done].
  case_decide; [|done].
  destruct (status_of db i); simpl; [|done]. by intros [= ?].
Qed.

Lemma marks_no_failure_store_findings db0 db fs syn now :
  marks_no_failure db0 db →
  marks_no_failure db0 (Agent.store_findings db reviewId fs syn now).
Proof.
  intros Hdb i. destruct (Hdb i) as [Hfailed Herror].
  rewrite status_of_store_findings. split; [done|].
  rewrite store_findings_review.
  case_decide as Hi; [subst i|done].
  rewrite <-Herror. by destruct (Agent.reviews db !! reviewId).
Qed.

Lemma marks_no_failure_store_remediations db0 db rs :
  marks_no_failure db0 db →
  marks_no_failure db0 (Agent.store_remediations db reviewId rs).
Proof. done. Qed.

(** Whatever the stages give and however the run ends, it marks no review
    failed and records no error. *)
Lemma run_marks_no_failure db :
  marks_no_failure db
    (Workflow.db (Workflow.run env reviewId (Workflow.mkSt db [])).2).
Proof.
  run_unfold.
  destruct (Workflow.triage_outcome env) as [tri|?]; simpl;
    [|apply marks_no_failure_refl].
  run_steps.
  destruct (Workflow.dependency_outcome env tri),
           (Workflow.auth_outcome env tri),
           (Workflow.injection_outcome env tri),
           (Workflow.secrets_outcome env); simpl; run_steps.
  all: outcome_cases.
  all: repeat first
         [ apply marks_no_failure_refl
         | apply marks_no_failure_update_status; [discriminate|]
         | apply marks_no_failure_store_findings
         | apply marks_no_failure_store_remediations ].
Qed.

(** *** The run on a store with no row for the review *)

(** When the store that the callbacks address holds no row for the review,
    the status updates change nothing: the reviews table is as it was after
    the run, however it ends. *)
Lemma run_without_the_row db :
  Agent.reviews db !! reviewId = None →
  Agent.reviews (Workflow.db (Workflow.run env reviewId (Workflow.mkSt db [])).2)
  = Agent.reviews db.
Proof.
  intros Hnone. run_unfold.
  destruct (Workflow.triage_outcome env) as [tri|?]; simpl; [|done].
  run_steps.
  destruct (Workflow.dependency_outcome env tri),
           (Workflow.auth_outcome env tri),
           (Workflow.injection_outcome env tri),
           (Workflow.secrets_outcome env); simpl; run_steps.
  all: outcome_cases.
  all: repeat (rewrite alter_id' by (by rewrite ?lookup_alter_None)).
  all: reflexivity.
Qed.

End run_facts.

(** * Facts about the service *)

Section service_facts.
Implicit Types (w : System.World) (o session : Objects.Id).
Implicit Types (env : Workflow.Env) (fs : list Finding.t) (syn : Synthesis.t).

(** ** The object that the callbacks address *)

(** For a review id that [submit_review] generates, the callbacks address
    the object of the name [rev], whatever the clock and the random source
    gave. *)
Lemma callback_of_generated timestamp random :
  Objects.callback_object (Stages.generateId "rev" timestamp random)
  = Objects.FromName "rev".
Proof. reflexivity. Qed.

(** No object that serves the tools is that object. *)
Lemma serving_is_not_callback session :
  Objects.serves_mcp session → session ≠ Objects.FromName "rev".
Proof. intros [->|[sessionId ->]]; discriminate. Qed.

Lemma put_same o db w : System.put o db w o = db.
Proof. unfold System.put. by rewrite decide_True. Qed.

Lemma put_other o o' db w : o' ≠ o → System.put o db w o' = w o'.
Proof. intros Hne. unfold System.put. by rewrite decide_False. Qed.

(** ** What the service keeps true *)

Lemma approve_nothing (reviewId : string) (now : Z) (ids : list string) :
  foldl (λ m i, alter (Agent.approve_row reviewId now) i m)
    (∅ : gmap string FindingRow.t) ids = ∅.
Proof.
  induction ids as [|i ids IH] using rev_ind; [done|].
  rewrite foldl_snoc, IH. apply alter_id'. apply lookup_empty.
Qed.

Lemma submit_review_untouched db reviewId userId code language instance now1 now2 :
  untouched_reviews db →
  untouched_reviews
    (Agent.submit_review db reviewId userId code language instance now1 now2).
Proof.
  intros Hdb i. unfold Agent.submit_review.
  destruct (Agent.reviews db !! reviewId) eqn:Hrow; [apply Hdb|].
  unfold Tools.check_status; cbn [Agent.reviews].
  rewrite lookup_alter. case_decide as Hi.
  - subst i. rewrite lookup_insert_eq. by right.
  - rewrite lookup_insert_ne by done. apply Hdb.
Qed.

(** In every world the service can be in, the object that the callbacks
    address holds no review, the other objects hold no finding and no
    remediation, and every review is as [submit_review] left it. *)
Lemma reachable_worlds w :
  System.reachable w →
  Agent.reviews (w (Objects.FromName "rev")) = ∅
  ∧ ∀ o, untouched_reviews (w o)
         ∧ (o ≠ Objects.FromName "rev" →
            Agent.findings (w o) = ∅ ∧ Agent.remediations (w o) = ∅).
Proof.
  induction 1 as [| w session userId code language timestamp random now1 now2
                    _ [IHrev IH] Hserves
                  | w session reviewId findingIds now _ [IHrev IH] Hserves
                  | w env timestamp random _ [IHrev IH] ].
  - split; [done|]. intros o. split; [|done]. intros i. by left.
  - apply serving_is_not_callback in Hserves.
    unfold System.submit_review; cbn [snd]. split.
    + by rewrite put_other.
    + intros o. destruct (decide (o = session)) as [->|Ho].
      * rewrite put_same. destruct (IH session) as [Hrows Hempty]. split.
        -- by apply submit_review_untouched.
        -- intros _. destruct (Hempty Hserves) as [Hf Hr].
           unfold Agent.submit_review.
           by destruct (Agent.reviews (w session) !! _).
      * rewrite put_other by done. apply IH.
  - apply serving_is_not_callback in Hserves.
    unfold System.approve_findings. split.
    + by rewrite put_other.
    + intros o. destruct (decide (o = session)) as [->|Ho].
      * rewrite put_same. destruct (IH session) as [Hrows Hempty].
        destruct (Hempty Hserves) as [Hf Hr].
        unfold Agent.approve_findings.
        destruct (Agent.reviews (w session) !! reviewId); [|by split].
        split; [exact Hrows|]. intros _. cbn [Agent.findings Agent.remediations].
        rewrite Hf. split; [apply approve_nothing | done].
      * rewrite put_other by done. apply IH.
  - unfold System.run. rewrite callback_of_generated. cbn [System.world].
    assert (Agent.reviews
              (Workflow.db
                 (Workflow.run env (Stages.generateId "rev" timestamp random)
                    (Workflow.mkSt (w (Objects.FromName "rev")) [])).2)
            = ∅) as Hrows.
    { rewrite run_without_the_row; [done|]. by rewrite IHrev. }
    split.
    + by rewrite put_same.
    + intros o. destruct (decide (o = Objects.FromName "rev")) as [->|Ho].
      * rewrite put_same. split; [|done]. intros i. left.
        unfold Tools.check_status. by rewrite Hrows.
      * rewrite put_other by done. apply IH.
Qed.

(** An event is not in a trace that is given explicitly. *)
Ltac absent :=
  let Hin := fresh "Hin" in
  unfold invoked; simpl; intros Hin;
  repeat (apply elem_of_cons in Hin as [Hin|Hin]; [discriminate Hin|]);
  by apply elem_of_nil in Hin.

(** ** The approval *)

(** C5 on the code: for a review submitted through an object that serves
    the tools, in any world the service can be in, whose run has reached
    the suspension point.  On an event with [approved] false or with an
    empty [findingIds] list the run returns [completed] with no
    remediation, the remediation step is not entered, the task is not
    called and no remediations table changes; when no event arrives within
    the wait window the same holds of the remediation, and the wait
    throws.  In either case the review is not left [completed]: the row
    that [submit_review] wrote, which [check_status] reads, is as it was
    written, with the status [triaging], and no object holds the review
    with the status [completed], because the status updates of the run go
    to the object of the name [rev], which has no row for it. *)
Theorem declined_approval_leaves_the_review_triaging
    env w session userId code language timestamp random now1 now2 fs syn st1 :
  System.reachable w →
  Objects.serves_mcp session →
  let submitted :=
    System.submit_review w session userId code language timestamp random
      now1 now2 in
  let reviewId := submitted.1 in
  Agent.reviews (w session) !! reviewId = None →
  Workflow.analyse env reviewId
    (Workflow.mkSt (submitted.2 (Objects.callback_object reviewId)) [])
  = (Ok (fs, syn), st1) →
  let out := System.run env reviewId submitted.2 in
  let untouched :=
    ¬ invoked "remediation" (System.steps out)
    ∧ remediation_calls (System.steps out) = []
    ∧ ∀ o, Agent.remediations (System.world out o)
           = Agent.remediations (submitted.2 o) in
  (∀ ev, Workflow.approval_outcome env = Some ev →
         Workflow.approved ev = false ∨ Workflow.findingIds ev = [] →
         System.outcome out = Ok (Workflow.mkResult "completed" syn [])
         ∧ untouched) ∧
  (Workflow.approval_outcome env = None →
   System.outcome out = Throw (Error "waitForEvent timed out") ∧ untouched) ∧
  Tools.check_status (System.world out session) reviewId
  = Some (as_submitted reviewId) ∧
  (∀ o, status_of (System.world out o) reviewId ≠ Some "completed").
Proof.
  intros Hreach Hserves submitted reviewId Hfresh Hanalyse out untouched.
  assert (reviewId = Stages.generateId "rev" timestamp random) as Hid
    by reflexivity.
  clearbody reviewId. subst reviewId.
  set (reviewId := Stages.generateId "rev" timestamp random) in *.
  pose proof (serving_is_not_callback _ Hserves) as Hsession.
  destruct (reachable_worlds _ Hreach) as [Hrev Hworld].
  assert (Objects.callback_object reviewId = Objects.FromName "rev") as Htarget
    by apply callback_of_generated.
  assert (submitted.2 (Objects.FromName "rev") = w (Objects.FromName "rev"))
    as Hcallback.
  { unfold submitted, System.submit_review; cbn [snd].
    rewrite put_other; [done|]. by intros <-. }
  assert (Tools.check_status (submitted.2 session) reviewId
          = Some (as_submitted reviewId)) as Hrow.
  { unfold submitted, System.submit_review; cbn [snd]. rewrite put_same.
    unfold Agent.submit_review. fold reviewId. rewrite Hfresh.
    unfold Tools.check_status; cbn [Agent.reviews].
    by rewrite lookup_alter_eq, lookup_insert_eq. }
  assert (∀ o, o ≠ Objects.FromName "rev" →
               System.world out o = submitted.2 o) as Hframe.
  { intros o Ho. unfold out, System.run; cbn [System.world].
    rewrite Htarget. by rewrite put_other. }
  assert (Agent.reviews (System.world out (Objects.FromName "rev")) = ∅)
    as Hnone.
  { unfold out, System.run; cbn [System.world]. rewrite Htarget, put_same.
    rewrite Hcallback, run_without_the_row; [done|]. by rewrite Hrev. }
  subst untouched. split_and!.
  1,2: unfold out, System.run;
       cbn [System.world System.outcome System.steps];
       rewrite Htarget, Hcallback; rewrite Htarget, Hcallback in Hanalyse;
       rewrite run_split, Hanalyse;
       apply analyse_reaches in Hanalyse
         as (tri & dep & auth & inj & sec & _ & _ & _ & _ & _ & _ & _ & Hdb & Htr).
  - intros ev Hev Hno. rewrite (resume_declined _ _ _ _ _ ev) by done.
    cbn [fst snd Workflow.db Workflow.trace]. rewrite Htr.
    split_and!; [done | absent | done |].
    intros o. destruct (decide (o = Objects.FromName "rev")) as [->|Ho].
    + rewrite put_same, Hcallback, Hdb. reflexivity.
    + by rewrite put_other.
  - intros Hsilent. rewrite resume_timeout by done.
    cbn [fst snd Workflow.db Workflow.trace]. rewrite Htr.
    split_and!; [done | absent | done |].
    intros o. destruct (decide (o = Objects.FromName "rev")) as [->|Ho].
    + rewrite put_same, Hcallback, Hdb. reflexivity.
    + by rewrite put_other.
  - rewrite (Hframe session Hsession). exact Hrow.
  - intros o. destruct (decide (o = Objects.FromName "rev")) as [->|Ho].
    + unfold status_of. by rewrite Hnone.
    + rewrite (Hframe o Ho).
      assert (untouched_reviews (submitted.2 o)) as Hrows.
      { unfold submitted, System.submit_review; cbn [snd].
        destruct (decide (o = session)) as [->|Hother].
        - rewrite put_same. apply submit_review_untouched, Hworld.
        - rewrite put_other by done. apply Hworld. }
      unfold status_of. destruct (Hrows reviewId) as [Hstatus|Hstatus];
        unfold Tools.check_status in Hstatus;
        destruct (Agent.reviews (submitted.2 o) !! reviewId) as [r|];
        simpl in *; try done.
      injection Hstatus as _ Hs _ _ _. rewrite Hs. discriminate.
Qed.

(** ** The fan-in *)

(** C6, as the code has it: the Reachability Filter does not begin before
    the four analysis tasks have settled.  In a run in which the filter step
    is entered, each of the four analysis steps was entered before it and
    has produced a result; and when one of the four has failed for good, the
    filter and the synthesis step are not entered and the run fails with
    the failure of one of the tasks that failed.  No review is marked: in
    no object does a review get the status [failed] or an error recorded
    by the run. *)
Theorem filter_waits_for_the_four_analyses env (reviewId : string) w :
  let out := System.run env reviewId w in
  let tr := System.steps out in
  (invoked "reachability-filter" tr →
   (∃ tri dep auth inj sec,
      Workflow.triage_outcome env = Ok tri
      ∧ Workflow.dependency_outcome env tri = Ok dep
      ∧ Workflow.auth_outcome env tri = Ok auth
      ∧ Workflow.injection_outcome env tri = Ok inj
      ∧ Workflow.secrets_outcome env = Ok sec)
   ∧ entered_before "dependency-analysis" "reachability-filter" tr
   ∧ entered_before "auth-analysis" "reachability-filter" tr
   ∧ entered_before "injection-analysis" "reachability-filter" tr
   ∧ entered_before "secrets-analysis" "reachability-filter" tr) ∧
  (∀ tri e,
     Workflow.triage_outcome env = Ok tri →
     Workflow.dependency_outcome env tri = Throw e
     ∨ Workflow.auth_outcome env tri = Throw e
     ∨ Workflow.injection_outcome env tri = Throw e
     ∨ Workflow.secrets_outcome env = Throw e →
     ¬ invoked "reachability-filter" tr
     ∧ ¬ invoked "synthesis" tr
     ∧ (∃ e', System.outcome out = Throw e'
              ∧ (Workflow.dependency_outcome env tri = Throw e'
                 ∨ Workflow.auth_outcome env tri = Throw e'
                 ∨ Workflow.injection_outcome env tri = Throw e'
                 ∨ Workflow.secrets_outcome env = Throw e'))
     ∧ ∀ o, marks_no_failure (w o) (System.world out o)).
Proof.
  intros out tr. subst tr out. unfold System.run.
  cbn [System.world System.outcome System.steps].
  destruct (run_fan_in env reviewId (w (Objects.callback_object reviewId)))
    as [Hjoin Hfail].
  split; [exact Hjoin|].
  intros tri e Htri Hsome. destruct (Hfail tri e Htri Hsome) as (Hf & Hs & He).
  split_and!; [done..|].
  intros o. destruct (decide (o = Objects.callback_object reviewId)) as [->|Ho].
  - rewrite put_same. apply run_marks_no_failure.
  - rewrite put_other by done. apply marks_no_failure_refl.
Qed.

End service_facts.

(** * The theorems at the sample data *)

Section examples.

Lemma sample_db1_reachable : reachable Sample.db1.
Proof. apply reach_store_findings, reach_submit, reach_empty. Qed.

Lemma sample_findings_consistent : Forall Spec.verdict_consistent Sample.findings.
Proof.
  unfold Sample.findings.
  repeat (apply Forall_cons; split;
          [vm_compute; repeat split; intros Hv; (reflexivity || discriminate Hv)|]).
  constructor.
Qed.

Lemma sample_db0_consistent : findings_consistent Sample.db0.
Proof.
  intros i row Hrow.
  change (Agent.findings Sample.db0) with (∅ : gmap string FindingRow.t) in Hrow.
  by rewrite lookup_empty in Hrow.
Qed.

(** The review of the sample store has six raw findings, three of them
    reachable, and half of the noise is gone. *)
Lemma noise_reduction_percent_recomputed_witness :
  ∃ r, Agent.reviews Sample.db1 !! "rev-1" = Some r
       ∧ ReviewRow.total_findings_raw r = 6
       ∧ ReviewRow.total_findings_filtered r = 3
       ∧ ReviewRow.noise_reduction_percent r
         = (Qc_of_Z (6 - 3) / Qc_of_Z 6 * Qc_of_Z 100)%Qc.
Proof.
  pose (r := ReviewRow.set_stats 6 3
               (Synthesis.noiseReductionPercent Sample.synthesis) 20
               (ReviewRow.mk "rev-1" "u1" "code" "auto" "triaging" 10 11
                  (Some "rev-1") 0 0 0%Qc (Some "triage") None)).
  assert (Agent.reviews Sample.db1 !! "rev-1" = Some r) as Hr
    by (vm_compute; reflexivity).
  exists r. split; [exact Hr|]. split; [reflexivity|]. split; [reflexivity|].
  destruct (noise_reduction_percent_recomputed Sample.db1 "rev-1" r
              sample_db1_reachable Hr) as (Hpos & _ & _).
  apply Hpos. reflexivity.
Defined.

(** Everything read back from the sample store has a consistent verdict. *)
Lemma verdict_survives_store_and_read_witness :
  Forall Spec.verdict_consistent
    (Agent.resp_findings (Agent.get_findings Sample.db1 "rev-1" (Some true))).
Proof.
  exact (proj1 (proj2 (verdict_survives_store_and_read Sample.db0 "rev-1"
                         Sample.findings Sample.synthesis 20 (Some true)
                         sample_db0_consistent sample_findings_consistent))).
Defined.

(** The sample run reaches the suspension point, whatever the approval. *)
Lemma sample_analyse approval :
  Workflow.analyse (Sample.env (Ok []) approval) "rev-1" Sample.start
  = (Ok (Sample.findings, Sample.synthesis4),
     (Workflow.analyse (Sample.env (Ok []) None) "rev-1" Sample.start).2).
Proof. vm_compute. reflexivity. Qed.

(** With [f1] and [f2] approved, the remediation task is called with [f1]
    alone: [f2] is named but not reachable, [f3] and [f4] are reachable but
    not named. *)
Lemma remediation_runs_over_approved_reachable_witness :
  Workflow.Remediate [Sample.f1]
  ∈ Workflow.trace (Workflow.run Sample.approving "rev-1" Sample.start).2.
Proof.
  destruct (remediation_runs_over_approved_reachable Sample.approving "rev-1"
              Sample.db0 Sample.findings Sample.synthesis4 _ Sample.approval
              (sample_analyse _) eq_refl eq_refl ltac:(discriminate))
    as (_ & _ & Hcalled & _).
  apply Hcalled. reflexivity.
Defined.

(** The run of the review submitted through the shared object reaches
    the suspension point, whatever the approval. *)
Lemma live_analyse approval :
  Workflow.analyse (Live.env (Ok []) approval) Live.reviewId
    (Workflow.mkSt (Live.world (Objects.callback_object Live.reviewId)) [])
  = (Ok (Sample.findings, Sample.synthesis4),
     (Workflow.analyse (Live.env (Ok []) None) Live.reviewId
        (Workflow.mkSt (Live.world (Objects.callback_object Live.reviewId)) [])).2).
Proof. vm_compute. reflexivity. Qed.

Lemma live_fresh :
  Agent.reviews (System.start Live.session) !! Live.reviewId = None.
Proof. reflexivity. Qed.

Lemma live_session : Objects.serves_mcp Live.session.
Proof. by left. Qed.

(** The review submitted through the shared object, with an event that
    approves nothing: the run returns [completed], and [check_status] still
    reports the review as [submit_review] left it. *)
Lemma declined_approval_leaves_the_review_triaging_witness :
  let out :=
    System.run (Live.env (Ok []) (Some Live.nothing_approved)) Live.reviewId
      Live.world in
  System.outcome out = Ok (Workflow.mkResult "completed" Sample.synthesis4 [])
  ∧ Tools.check_status (System.world out Live.session) Live.reviewId
    = Some (as_submitted Live.reviewId).
Proof.
  destruct (declined_approval_leaves_the_review_triaging
              (Live.env (Ok []) (Some Live.nothing_approved)) System.start
              Live.session "u1" "code" None "mb3k2x1a" "q9z4ff" 10 11
              Sample.findings Sample.synthesis4 _ System.reach_start
              live_session live_fresh (live_analyse _))
    as (Hdeclined & _ & Hstatus & _).
  destruct (Hdeclined Live.nothing_approved eq_refl (or_intror eq_refl))
    as [Hout _].
  split; [exact Hout | exact Hstatus].
Defined.

(** The same review with an event that rejects, and with no event within
    the wait window: the first run returns, the second fails in the wait,
    and [check_status] reports the review as [submit_review] left it. *)
Example rejected_review_stays_triaging :
  let out :=
    System.run (Live.env (Ok []) (Some Sample.rejection)) Live.reviewId
      Live.world in
  System.outcome out = Ok (Workflow.mkResult "completed" Sample.synthesis4 [])
  ∧ Tools.check_status (System.world out Live.session) Live.reviewId
    = Some (as_submitted Live.reviewId).
Proof. by vm_compute. Qed.

Example unanswered_review_stays_triaging :
  let out := System.run (Live.env (Ok []) None) Live.reviewId Live.world in
  System.outcome out = Throw (Error "waitForEvent timed out")
  ∧ Tools.check_status (System.world out Live.session) Live.reviewId
    = Some (as_submitted Live.reviewId).
Proof. by vm_compute. Qed.

(** C6 fails in its last part: after the dependency step of the run has
    failed for good, the review does not have the status [failed]; the row
    that [check_status] reads is as [submit_review] left it, with no error,
    and the object that the callbacks address holds no row for the
    review. *)
Lemma failed_analysis_does_not_fail_the_review :
  let env := Live.env (Throw (Error "Failed to parse AI response as JSON")) None in
  let out := System.run env Live.reviewId Live.world in
  Workflow.dependency_outcome env Sample.triage
  = Throw (Error "Failed to parse AI response as JSON")
  ∧ System.outcome out = Throw (Error "Failed to parse AI response as JSON")
  ∧ Tools.check_status (System.world out Live.session) Live.reviewId
    = Some (as_submitted Live.reviewId)
  ∧ status_of (System.world out Live.session) Live.reviewId ≠ Some "failed"
  ∧ Tools.check_status
      (System.world out (Objects.callback_object Live.reviewId)) Live.reviewId
    = None.
Proof.
  split_and!; [reflexivity | by vm_compute | by vm_compute | | by vm_compute].
  vm_compute. discriminate.
Qed.

(** The sample run with a dependency step that fails for good: the four
    analysis steps are entered and nothing after them is. *)
Example failing_dependency_step_fails_the_run :
  let out := Workflow.run Sample.failing "rev-1" Sample.start in
  out.1 = Throw (Error "Failed to parse AI response as JSON")
  ∧ Workflow.trace out.2
    = Workflow.Step <$>
        ["triage"; "update-status-analyzing"; "dependency-analysis";
         "auth-analysis"; "injection-analysis"; "secrets-analysis"].
Proof. by vm_compute. Qed.

(** The sample run with an approval: the whole trace. *)
Example approving_run_trace :
  Workflow.trace (Workflow.run Sample.approving "rev-1" Sample.start).2
  = ((Workflow.Step <$>
        ["triage"; "update-status-analyzing"; "dependency-analysis";
         "auth-analysis"; "injection-analysis"; "secrets-analysis";
         "update-status-filtering"; "reachability-filter"; "synthesis";
         "store-findings"; "update-status-awaiting-approval"; "approval";
         "update-status-remediating"; "remediation"])
     ++ Workflow.Remediate [Sample.f1]
        :: (Workflow.Step <$> ["store-remediations"; "update-status-completed"]))%list.
Proof. by vm_compute. Qed.

(** ** The adapters on the sample responses *)

Lemma sample_prose_malformed : @Stages.malformed Sample.runtime Sample.prose.
Proof. vm_compute. exact I. Qed.

(** On a response that is prose, the dependency adapter throws and the
    injection and secrets adapters return the empty list. *)
Lemma dependency_stage_propagates_malformed_output_witness :
  (∃ e, (@Stages.runDependencyStage Sample.runtime (Ok Sample.prose)
           Sample.entropy).1 = Throw e)
  ∧ (@Stages.runSecretsStage Sample.runtime (Ok Sample.prose)
       Sample.entropy).1 = Ok []
  ∧ (@Stages.runInjectionStage Sample.runtime Sample.triage (Ok Sample.prose)
       Sample.entropy).1 = Ok [].
Proof.
  exact (@dependency_stage_propagates_malformed_output Sample.runtime
           Sample.triage Sample.prose Sample.entropy sample_prose_malformed).
Defined.

(** What each adapter does with prose and with an object: result and log. *)
Example dependency_stage_on_prose :
  @Stages.runDependencyStage Sample.runtime (Ok Sample.prose) Sample.entropy
  = (Throw (Error "Failed to parse AI response as JSON"),
     ["Failed to parse JSON response:"]).
Proof. reflexivity. Qed.

Example dependency_stage_on_object :
  @Stages.runDependencyStage Sample.runtime (Ok Sample.wrapped) Sample.entropy
  = (Throw (TypeError "findings.map is not a function"), []).
Proof. reflexivity. Qed.

Example secrets_stage_on_prose :
  @Stages.runSecretsStage Sample.runtime (Ok Sample.prose) Sample.entropy
  = (Ok [], ["Failed to parse JSON response:"; "Secrets stage parse error:"]).
Proof. reflexivity. Qed.

Example secrets_stage_on_object :
  @Stages.runSecretsStage Sample.runtime (Ok Sample.wrapped) Sample.entropy
  = (Ok [], []).
Proof. reflexivity. Qed.

Example injection_stage_on_prose :
  @Stages.runInjectionStage Sample.runtime Sample.triage (Ok Sample.prose)
    Sample.entropy
  = (Ok [], ["Failed to parse JSON response:"; "Injection stage parse error:"]).
Proof. reflexivity. Qed.

(** C8 fails on the injection adapter: a finding that the response labels
    [auth] is returned with the category [auth], not [injection]; the
    finding with no category gets [injection], and the one with no id gets a
    generated one. *)
Lemma injection_stage_keeps_the_response_category :
  let r := @Stages.runInjectionStage Sample.runtime Sample.triage
             (Ok Sample.labelled) Sample.entropy in
  (∃ out, r.1 = Ok out ∧ length out = 2%nat)
  ∧ Stages.prop "category" <$> Stages.returned r
    = [Some (JStr "auth"); Some (JStr "injection")]
  ∧ Stages.prop "id" <$> Stages.returned r
    = [Some (JStr "x1"); Some (JStr "inj-1-mb3k2x1a-q9z4ff")]
  ∧ Stages.prop "category" <$> Stages.returned r
    ≠ [Some (JStr "injection"); Some (JStr "injection")].
Proof.
  split_and!; [by eexists | by vm_compute | by vm_compute |].
  vm_compute. discriminate.
Qed.

(** The dependency adapter, for comparison, overrides the label. *)
Example dependency_stage_overrides_the_response_category :
  Stages.prop "category" <$>
    Stages.returned (@Stages.runDependencyStage Sample.runtime
                       (Ok Sample.labelled) Sample.entropy)
  = [Some (JStr "dependency"); Some (JStr "dependency")].
Proof. by vm_compute. Qed.

End examples.

(** * Further facts about the store *)

Set Warnings "-clear-no-such-hyp".

Section store_more.
Implicit Types (db : Agent.DB) (fs : list Finding.t) (f : Finding.t).
Implicit Types (tbl : gmap string FindingRow.t) (row : FindingRow.t).

(** ** Upserts in a loop *)

Section upsert.
Context {A B : Type} (key : A → string) (val : A → B).
Implicit Types (l : list A) (m : gmap string B).

Lemma upsert_mask l m k v w :
  <[k := v]> (foldl (λ m a, <[key a := val a]> m) (<[k := w]> m) l)
  = <[k := v]> (foldl (λ m a, <[key a := val a]> m) m l).
Proof.
  revert m. induction l as [|a l IH]; intros m; simpl.
  - apply insert_insert_eq.
  - destruct (decide (key a = k)) as [->|Hne].
    + by rewrite insert_insert_eq.
    + rewrite insert_insert_ne by done. apply IH.
Qed.

Lemma upsert_absorb l m :
  foldl (λ m a, <[key a := val a]> m) (foldl (λ m a, <[key a := val a]> m) m l) l
  = foldl (λ m a, <[key a := val a]> m) m l.
Proof.
  induction l as [|a l IH] using rev_ind; [done|].
  by rewrite !foldl_snoc, upsert_mask, IH.
Qed.

(** The row under the key of a listed item is the row of a listed item with
    that key. *)
Lemma upsert_lookup_in l m a :
  a ∈ l →
  ∃ b, b ∈ l ∧ key b = key a
       ∧ foldl (λ m a, <[key a := val a]> m) m l !! key a = Some (val b).
Proof.
  induction l as [|c l IH] using rev_ind; [by intros ?%elem_of_nil|].
  rewrite foldl_snoc. intros Ha.
  destruct (decide (key c = key a)) as [Heq|Hne].
  - exists c. split_and!; [set_solver | done |].
    rewrite <-Heq. apply lookup_insert_eq.
  - apply elem_of_app in Ha as [Ha | ->%list_elem_of_singleton]; [|done].
    destruct (IH Ha) as (b & Hb & Hkey & Hrow).
    exists b. split_and!; [set_solver | done |].
    by rewrite lookup_insert_ne.
Qed.

(** The rows under the other keys are the old ones. *)
Lemma upsert_lookup_notin l m k :
  k ∉ key <$> l → foldl (λ m a, <[key a := val a]> m) m l !! k = m !! k.
Proof.
  induction l as [|c l IH] using rev_ind; [done|].
  rewrite foldl_snoc, fmap_app. intros Hk.
  rewrite lookup_insert_ne by set_solver. apply IH. set_solver.
Qed.

End upsert.

(** ** [/store-findings] and the rows it takes over *)

(** X1: after store-findings, the row filed under the id of each finding of
    the list is the row of a finding of the list with that id; it belongs
    to the review of the call, whatever review a row with that id belonged
    to before, and it is not approved, whatever it was before.  The rows
    under all other ids are untouched. *)
Theorem store_findings_takes_over_rows db reviewId fs synthesis now :
  let db' := Agent.store_findings db reviewId fs synthesis now in
  (∀ f, f ∈ fs →
        ∃ g row, g ∈ fs ∧ Finding.id g = Finding.id f
                 ∧ Agent.findings db' !! Finding.id f = Some row
                 ∧ row = Agent.finding_row reviewId g
                 ∧ FindingRow.review_id row = reviewId
                 ∧ FindingRow.approved row = 0
                 ∧ FindingRow.approved_at row = None) ∧
  (∀ i, i ∉ Finding.id <$> fs →
        Agent.findings db' !! i = Agent.findings db !! i).
Proof.
  intros db'. subst db'. unfold Agent.store_findings, Agent.insert_findings; simpl.
  split.
  - intros f Hf.
    destruct (upsert_lookup_in Finding.id (Agent.finding_row reviewId) fs
                (Agent.findings db) f Hf) as (g & Hg & Hid & Hrow).
    exists g, (Agent.finding_row reviewId g). by split_and!.
  - intros i Hi. by apply upsert_lookup_notin.
Qed.

(** ** [approve_findings] *)

Lemma approve_row_idemp reviewId now row :
  Agent.approve_row reviewId now (Agent.approve_row reviewId now row)
  = Agent.approve_row reviewId now row.
Proof.
  unfold Agent.approve_row.
  destruct (decide (FindingRow.review_id row = reviewId)) as [Hrow|Hrow];
    [|by rewrite decide_False].
  rewrite decide_True; [done|]. by destruct row.
Qed.

Lemma approve_loop_lookup reviewId now (ids : list string) tbl i :
  foldl (λ m j, alter (Agent.approve_row reviewId now) j m) tbl ids !! i
  = if decide (i ∈ ids)
    then Agent.approve_row reviewId now <$> tbl !! i
    else tbl !! i.
Proof.
  revert i. induction ids as [|j ids IH] using rev_ind; intros i.
  - destruct (decide (i ∈ [])) as [Hin|_]; [by apply elem_of_nil in Hin|done].
  - rewrite foldl_snoc, lookup_alter.
    destruct (decide (j = i)) as [->|Hne]; rewrite IH.
    + rewrite (decide_True (P := i ∈ (ids ++ [i])%list))
        by (apply elem_of_app; right; apply list_elem_of_singleton; done).
      case_decide; [|done].
      destruct (tbl !! i); simpl; [|done]. by rewrite approve_row_idemp.
    + destruct (decide (i ∈ ids)) as [Hin|Hin].
      * rewrite decide_True; [done|]. apply elem_of_app. by left.
      * rewrite decide_False; [done|].
        intros [?| ->%list_elem_of_singleton]%elem_of_app; done.
Qed.

Lemma approve_row_read reviewId now row :
  Agent.mapFindingFromDb (Agent.approve_row reviewId now row)
  = Agent.mapFindingFromDb row.
Proof. unfold Agent.approve_row. by case_decide. Qed.

Lemma approve_row_review reviewId now row :
  FindingRow.review_id (Agent.approve_row reviewId now row)
  = FindingRow.review_id row.
Proof. unfold Agent.approve_row. by case_decide. Qed.

Lemma approve_row_reachable reviewId now row :
  FindingRow.is_reachable (Agent.approve_row reviewId now row)
  = FindingRow.is_reachable row.
Proof. unfold Agent.approve_row. by case_decide. Qed.

(** X2: approve_findings writes nothing when the review does not exist;
    otherwise it marks exactly the rows that are named and belong to the
    review (a named row of another review stays as it is), changes no other
    column of any row, and leaves the reviews and the remediations alone, so
    get_findings returns what it returned before. *)
Theorem approve_findings_marks_named_rows_of_the_review db reviewId findingIds now :
  let db' := Agent.approve_findings db reviewId findingIds now in
  (Agent.reviews db !! reviewId = None → db' = db) ∧
  (is_Some (Agent.reviews db !! reviewId) →
   ∀ i, Agent.findings db' !! i
        = (λ row, if decide (i ∈ findingIds ∧ FindingRow.review_id row = reviewId)
                  then FindingRow.set_approved now row else row)
          <$> Agent.findings db !! i) ∧
  Agent.reviews db' = Agent.reviews db ∧
  Agent.remediations db' = Agent.remediations db ∧
  (∀ other includeFiltered f,
     f ∈ Agent.resp_findings (Agent.get_findings db' other includeFiltered) ↔
     f ∈ Agent.resp_findings (Agent.get_findings db other includeFiltered)).
Proof.
  intros db'. subst db'. unfold Agent.approve_findings.
  destruct (Agent.reviews db !! reviewId) as [r|] eqn:Hr;
    cbn [Agent.findings Agent.reviews Agent.remediations].
  2: { split_and!; [done | by intros [? [=]] | done | done | done]. }
  assert (∀ i, foldl (λ m j, alter (Agent.approve_row reviewId now) j m)
                 (Agent.findings db) findingIds !! i
               = (λ row, if decide (i ∈ findingIds
                                    ∧ FindingRow.review_id row = reviewId)
                         then FindingRow.set_approved now row else row)
                 <$> Agent.findings db !! i) as Hrows.
  { intros i. rewrite approve_loop_lookup.
    destruct (Agent.findings db !! i) as [row|]; simpl; [|by case_decide].
    unfold Agent.approve_row.
    destruct (decide (i ∈ findingIds)), (decide (FindingRow.review_id row = reviewId));
      simpl; rewrite ?decide_True, ?decide_False by tauto; done. }
  split_and!; [done | by intros _ | done | done |].
  intros other includeFiltered f. rewrite !get_findings_elem.
  cbn [Agent.findings]. split.
  - intros (i & row' & Hrow' & Hwhere & ->). rewrite Hrows in Hrow'.
    destruct (Agent.findings db !! i) as [row|] eqn:Hrow; [|done].
    injection Hrow' as <-. exists i, row. split; [done|].
    case_decide; [|done]. by destruct row.
  - intros (i & row & Hrow & Hwhere & ->).
    exists i. eexists. rewrite Hrows, Hrow. simpl. split; [reflexivity|].
    case_decide; [|done]. by destruct row.
Qed.

(** ** Writes for a review that is not in the store *)

(** X3: the callbacks of the workflow do not create a review.  For a review
    id that is not in the store, update-status changes nothing at all, and
    store-findings leaves the reviews as they are but still files every
    finding under that review id: check_status keeps answering that the
    review is not found and get_findings reports no statistics. *)
Theorem callbacks_for_an_unknown_review db reviewId :
  Agent.reviews db !! reviewId = None →
  (∀ status stage now, Agent.update_status db reviewId status stage now = db) ∧
  (∀ fs synthesis now includeFiltered,
     let db' := Agent.store_findings db reviewId fs synthesis now in
     Agent.reviews db' = Agent.reviews db
     ∧ (∀ f, f ∈ fs → ∃ row, Agent.findings db' !! Finding.id f = Some row
                              ∧ FindingRow.review_id row = reviewId)
     ∧ Tools.check_status db' reviewId = None
     ∧ Agent.resp_stats (Agent.get_findings db' reviewId includeFiltered) = None).
Proof.
  intros Hnone. split.
  - intros status stage now. unfold Agent.update_status.
    rewrite alter_id' by done. by destruct db.
  - intros fs synthesis now includeFiltered db'.
    assert (Agent.reviews db' = Agent.reviews db) as Hsame.
    { subst db'. unfold Agent.store_findings; simpl. by rewrite alter_id'. }
    split_and!.
    + exact Hsame.
    + intros f Hf.
      destruct (upsert_lookup_in Finding.id (Agent.finding_row reviewId) fs
                  (Agent.findings db) f Hf) as (g & _ & _ & Hrow).
      by exists (Agent.finding_row reviewId g).
    + unfold Tools.check_status. by rewrite Hsame, Hnone.
    + unfold Agent.get_findings; simpl. by rewrite alter_id', Hnone.
Qed.

(** ** Round trips *)

Lemma truthy_str_canonical (x : option string) :
  x ≠ Some EmptyString → truthy_str x = x.
Proof.
  destruct x as [s|]; [|done]. intros Hs. simpl.
  rewrite decide_False; [done|]. by intros ->.
Qed.

(** X4: a finding with no empty optional text and with its two analysis
    lists present is read back by mapFindingFromDb, from the row that
    store-findings writes for it, exactly as it was stored, whatever the
    review. *)
Theorem canonical_finding_round_trip reviewId f :
  canonical f →
  Agent.mapFindingFromDb (Agent.finding_row reviewId f) = f.
Proof.
  intros (Hcwe & Howasp & Hreason & [path Hpath] & [sans Hsans]).
  destruct f as [i cat sev ti de [sl el sn] cwe owasp reach [hp dfp sip fpr]].
  simpl in *. subst dfp sip.
  unfold Agent.mapFindingFromDb, Agent.finding_row; simpl.
  rewrite !truthy_str_idemp, !truthy_str_canonical by done.
  by destruct reach, hp.
Qed.

(** ** Remediations *)

(** X5: store-remediations upserts by remediation id: a second call with the
    same arguments changes nothing, reviews and findings are never touched,
    the rows under other ids are kept, and the row under the id of each
    remediation of the list reads back through get_remediation as a
    remediation of the list with that id, its review id being the one of the
    call. *)
Theorem store_remediations_upserts db reviewId rs :
  let db' := Agent.store_remediations db reviewId rs in
  Agent.store_remediations db' reviewId rs = db' ∧
  Agent.reviews db' = Agent.reviews db ∧
  Agent.findings db' = Agent.findings db ∧
  (∀ i, i ∉ Remediation.id <$> rs →
        Agent.remediations db' !! i = Agent.remediations db !! i) ∧
  (∀ r, r ∈ rs →
        ∃ r', r' ∈ rs ∧ Remediation.id r' = Remediation.id r
              ∧ Remediation.mk (Remediation.id r') (Remediation.findingId r')
                  reviewId (Remediation.originalCode r')
                  (Remediation.fixedCode r') (Remediation.explanation r')
                  (Remediation.diffHunks r') (Remediation.createdAt r')
                ∈ Tools.rem_remediations (Tools.get_remediation db' reviewId None)).
Proof.
  intros db'. subst db'. unfold Agent.store_remediations; simpl.
  split_and!; [| done | done | |].
  - by rewrite upsert_absorb.
  - intros i Hi. by apply upsert_lookup_notin.
  - intros r Hr.
    destruct (upsert_lookup_in Remediation.id (Agent.remediation_row reviewId)
                rs (Agent.remediations db) r Hr) as (r' & Hr' & Hid & Hrow).
    exists r'. split_and!; [done | done |].
    unfold Tools.get_remediation; simpl. apply list_elem_of_fmap.
    exists (Agent.remediation_row reviewId r'). split; [done|].
    apply list_elem_of_filter. split; [by split|].
    apply list_elem_of_fmap. exists (Remediation.id r, Agent.remediation_row reviewId r').
    split; [done|]. by apply elem_of_map_to_list.
Qed.

(** What [get_remediation] returns: the rows that pass its WHERE clause. *)
Lemma get_remediation_elem db reviewId findingId r :
  r ∈ Tools.rem_remediations (Tools.get_remediation db reviewId findingId) ↔
  ∃ i rem, Agent.remediations db !! i = Some rem
           ∧ Tools.remediation_where reviewId findingId rem
           ∧ r = Tools.mapRemediationFromDb rem.
Proof.
  unfold Tools.get_remediation; simpl. rewrite list_elem_of_fmap. split.
  - intros (rem & -> & Hrow).
    apply list_elem_of_filter in Hrow as [Hwhere Hrow].
    apply list_elem_of_fmap in Hrow as ([i rem'] & -> & Hin).
    apply elem_of_map_to_list in Hin. by exists i, rem'.
  - intros (i & rem & Hrow & Hwhere & ->). exists rem. split; [done|].
    apply list_elem_of_filter. split; [done|].
    apply list_elem_of_fmap. exists (i, rem). split; [done|].
    by apply elem_of_map_to_list.
Qed.

(** X6: get_remediation returns the remediations of the review and of no
    other; with a finding id that is not empty it returns those of that
    finding only, and an empty finding id is treated like an omitted one;
    the count it reports is the number of remediations it returns. *)
Theorem get_remediation_selection db reviewId :
  Tools.get_remediation db reviewId (Some EmptyString)
  = Tools.get_remediation db reviewId None ∧
  (∀ r, r ∈ Tools.rem_remediations (Tools.get_remediation db reviewId None) ↔
        ∃ i rem, Agent.remediations db !! i = Some rem
                 ∧ RemediationRow.review_id rem = reviewId
                 ∧ r = Tools.mapRemediationFromDb rem) ∧
  (∀ findingId r,
     findingId ≠ EmptyString →
     r ∈ Tools.rem_remediations
           (Tools.get_remediation db reviewId (Some findingId)) ↔
     ∃ i rem, Agent.remediations db !! i = Some rem
              ∧ RemediationRow.review_id rem = reviewId
              ∧ RemediationRow.finding_id rem = findingId
              ∧ r = Tools.mapRemediationFromDb rem) ∧
  (∀ findingId,
     let response := Tools.get_remediation db reviewId findingId in
     Tools.remediationsCount response = length (Tools.rem_remediations response)
     ∧ Forall (λ r, Remediation.reviewId r = reviewId)
         (Tools.rem_remediations response)).
Proof.
  split_and!.
  - reflexivity.
  - intros r. rewrite get_remediation_elem. unfold Tools.remediation_where; simpl.
    split.
    + intros (i & rem & Hrow & [Hrev _] & ->). by exists i, rem.
    + intros (i & rem & Hrow & Hrev & ->). by exists i, rem.
  - intros findingId r Hne. rewrite get_remediation_elem.
    unfold Tools.remediation_where; simpl. rewrite decide_False by done.
    split.
    + intros (i & rem & Hrow & [Hrev Hfid] & ->). by exists i, rem.
    + intros (i & rem & Hrow & Hrev & Hfid & ->). by exists i, rem.
  - intros findingId response. split.
    + subst response. unfold Tools.get_remediation; simpl.
      by rewrite length_fmap.
    + apply Forall_forall. intros r Hr.
      apply get_remediation_elem in Hr as (i & rem & _ & [Hrev _] & ->).
      exact Hrev.
Qed.

(** ** Finding ids as primary keys *)

Lemma keyed_ids db :
  well_keyed db →
  FindingRow.id <$> (map_to_list (Agent.findings db)).*2
  = (map_to_list (Agent.findings db)).*1.
Proof.
  intros Hkey. rewrite <-list_fmap_compose.
  apply Forall_fmap_ext, Forall_forall.
  intros [i row] Hin%elem_of_map_to_list. simpl. by apply Hkey.
Qed.

(** X7: when every row of the findings table is filed under its own id, it
    stays so after each operation of the agent, and get_findings never
    returns two findings with the same id; the count it reports is the
    number of findings it returns. *)
Theorem finding_ids_are_primary_keys db :
  well_keyed db →
  (∀ reviewId fs synthesis now,
     well_keyed (Agent.store_findings db reviewId fs synthesis now)) ∧
  (∀ reviewId findingIds now,
     well_keyed (Agent.approve_findings db reviewId findingIds now)) ∧
  (∀ reviewId status stage now,
     well_keyed (Agent.update_status db reviewId status stage now)) ∧
  (∀ reviewId userId code language instance now1 now2,
     well_keyed (Agent.submit_review db reviewId userId code language
                   instance now1 now2)) ∧
  (∀ reviewId rs, well_keyed (Agent.store_remediations db reviewId rs)) ∧
  (∀ reviewId includeFiltered,
     let response := Agent.get_findings db reviewId includeFiltered in
     NoDup (Finding.id <$> Agent.resp_findings response)
     ∧ Agent.findingsCount response = length (Agent.resp_findings response)).
Proof.
  intros Hkey. split_and!.
  - intros reviewId fs synthesis now i row Hrow. simpl in Hrow.
    apply insert_findings_lookup in Hrow as [Hold | (f & _ & Hid & ->)];
      [by apply Hkey | done].
  - intros reviewId findingIds now i row Hrow.
    unfold Agent.approve_findings in Hrow.
    destruct (Agent.reviews db !! reviewId); [|by apply Hkey].
    cbn [Agent.findings] in Hrow. rewrite approve_loop_lookup in Hrow.
    case_decide; [|by apply Hkey].
    destruct (Agent.findings db !! i) as [old|] eqn:Hold; [|done].
    injection Hrow as <-. rewrite <-(Hkey _ _ Hold).
    unfold Agent.approve_row. by case_decide.
  - intros reviewId status stage now i row Hrow. by apply Hkey.
  - intros reviewId userId code language instance now1 now2 i row Hrow.
    unfold Agent.submit_review in Hrow.
    destruct (Agent.reviews db !! reviewId); by apply Hkey.
  - intros reviewId rs i row Hrow. by apply Hkey.
  - intros reviewId includeFiltered response. subst response.
    unfold Agent.get_findings; cbn [Agent.resp_findings Agent.findingsCount].
    split; [|by rewrite length_fmap].
    rewrite <-list_fmap_compose.
    change (Finding.id ∘ Agent.mapFindingFromDb) with FindingRow.id.
    unfold Agent.select_findings. rewrite merge_sort_Permutation.
    eapply sublist_NoDup; [|apply fmap_sublist, sublist_filter].
    rewrite keyed_ids by done. apply NoDup_fst_map_to_list.
Qed.

(** ** [check_status] after a write *)

(** X8: check_status after a write.  After update-status it reports the
    new status and stage for the review that was updated (an empty stage
    as none), with the statistics and the error as before; after
    store-findings it reports the statistics of the call for that review,
    the exploitable count being the number of reachable findings of the
    list, with status and stage as before; for every other review, and
    after approve_findings and store-remediations for every review, it
    reports what it reported before. *)
Theorem check_status_after_a_write db reviewId other :
  (∀ status stage now,
     Tools.check_status (Agent.update_status db reviewId status stage now) other
     = if decide (reviewId = other)
       then (λ s, Tools.mkStatus (Tools.status_reviewId s) status
                    (truthy_str stage) (Tools.status_stats s)
                    (Tools.status_error s))
            <$> Tools.check_status db other
       else Tools.check_status db other) ∧
  (∀ fs synthesis now,
     Tools.check_status (Agent.store_findings db reviewId fs synthesis now) other
     = if decide (reviewId = other)
       then (λ s, Tools.mkStatus (Tools.status_reviewId s)
                    (Tools.status_status s) (Tools.status_currentStage s)
                    (Agent.mkStats (Synthesis.totalRaw synthesis)
                       (Agent.reachableCount fs)
                       (Synthesis.noiseReductionPercent synthesis))
                    (Tools.status_error s))
            <$> Tools.check_status db other
       else Tools.check_status db other) ∧
  (∀ findingIds now,
     Tools.check_status (Agent.approve_findings db reviewId findingIds now) other
     = Tools.check_status db other) ∧
  (∀ rs,
     Tools.check_status (Agent.store_remediations db reviewId rs) other
     = Tools.check_status db other).
Proof.
  split_and!.
  - intros status stage now. unfold Tools.check_status, Agent.update_status.
    cbn [Agent.reviews]. rewrite lookup_alter. case_decide; [subst other|done].
    by destruct (Agent.reviews db !! reviewId).
  - intros fs synthesis now. unfold Tools.check_status, Agent.store_findings.
    cbn [Agent.reviews]. rewrite lookup_alter. case_decide; [subst other|done].
    by destruct (Agent.reviews db !! reviewId).
  - intros findingIds now. unfold Tools.check_status, Agent.approve_findings.
    by destruct (Agent.reviews db !! reviewId).
  - done.
Qed.

(** ** [list_reviews] *)

#[local] Instance newest_first_trans : Transitive Tools.newest_first.
Proof. intros a b c. unfold Tools.newest_first. lia. Qed.

#[local] Instance newest_first_total : Total Tools.newest_first.
Proof. intros a b. unfold Tools.newest_first. lia. Qed.


(** ** [compare_reviews] *)

Lemma colonless_pretty_N_go n s :
  colonless s → colonless (pretty_N_go n s).
Proof.
  revert s. induction (N.lt_wf_0 n) as [n _ IH]; intros s Hs.
  assert (n = 0 ∨ 0 < n)%N as [->|Hpos] by lia.
  - by rewrite pretty_N_go_0.
  - rewrite pretty_N_go_step by done. apply IH.
    + by apply N.div_lt.
    + split; [|done]. unfold pretty_N_char. by repeat case_match.
Qed.

Lemma colonless_pretty (z : Z) : colonless (pretty z).
Proof.
  assert (∀ p : positive, colonless (pretty p)) as Hpos.
  { intros p. unfold pretty, pretty_positive, pretty, pretty_N.
    case_decide; [by split|]. by apply colonless_pretty_N_go. }
  destruct z as [|p|p]; unfold pretty, pretty_Z.
  - by split.
  - apply Hpos.
  - rewrite string_app_cons, string_app_nil. split; [done|]. apply Hpos.
Qed.

Lemma colon_not_colonless (a r : string) : ¬ colonless (a +:+ ":" +:+ r).
Proof.
  induction a as [|c a IH]; rewrite ?string_app_cons, ?string_app_nil; simpl.
  - by intros [? _].
  - by intros [_ ?].
Qed.

(** The text after the last colon decides where the title ends. *)
Lemma colon_suffix_inj (a b p q : string) :
  colonless p → colonless q →
  a +:+ ":" +:+ p = b +:+ ":" +:+ q → a = b ∧ p = q.
Proof.
  revert b. induction a as [|c a IH]; intros [|d b] Hp Hq Heq;
    rewrite ?string_app_cons, ?string_app_nil in Heq.
  - by injection Heq as ->.
  - injection Heq as _ ->. by apply colon_not_colonless in Hp.
  - injection Heq as _ <-. by apply colon_not_colonless in Hq.
  - injection Heq as -> Heq. destruct (IH b Hp Hq Heq) as [-> ->]. done.
Qed.

Lemma diff_key_inj row1 row2 :
  Tools.diff_key row1 = Tools.diff_key row2 ↔
  FindingRow.title row1 = FindingRow.title row2
  ∧ FindingRow.location_start_line row1 = FindingRow.location_start_line row2.
Proof.
  unfold Tools.diff_key. split.
  - intros Heq. apply colon_suffix_inj in Heq as [Ht Hl];
      [|apply colonless_pretty..].
    split; [done|]. by apply (inj pretty).
  - by intros [-> ->].
Qed.

Lemma reachable_rows_elem db reviewId row :
  row ∈ Tools.reachable_rows db reviewId ↔
  ∃ i, Agent.findings db !! i = Some row
       ∧ FindingRow.review_id row = reviewId
       ∧ FindingRow.is_reachable row = 1.
Proof.
  unfold Tools.reachable_rows.
  rewrite list_elem_of_filter, list_elem_of_fmap. split.
  - intros ([Hrev Hreach] & [i r'] & -> & Hr%elem_of_map_to_list). by exists i.
  - intros (i & Hr & Hrev & Hreach). split; [done|]. exists (i, row).
    split; [done|]. by apply elem_of_map_to_list.
Qed.

(** X10: compare_reviews matches findings by title and start line, whatever
    colons the titles hold: a finding is reported as new exactly when it is
    a reachable finding of the second review and no reachable finding of
    the first review has its title and its start line, and as fixed exactly
    when it is a reachable finding of the first review with no such
    counterpart in the second.  Findings held to be unreachable take no
    part, and delta is the difference of the two reachable counts. *)
Theorem compare_reviews_by_title_and_line db reviewId1 reviewId2 :
  let c := Tools.compare_reviews db reviewId1 reviewId2 in
  let unmatched (mine theirs : string) (f : Finding.t) :=
    ∃ i row, Agent.findings db !! i = Some row
             ∧ FindingRow.review_id row = mine
             ∧ FindingRow.is_reachable row = 1
             ∧ f = Agent.mapFindingFromDb row
             ∧ ∀ j other, Agent.findings db !! j = Some other →
                          FindingRow.review_id other = theirs →
                          FindingRow.is_reachable other = 1 →
                          ¬ (FindingRow.title other = FindingRow.title row
                             ∧ FindingRow.location_start_line other
                               = FindingRow.location_start_line row) in
  (∀ f, f ∈ Tools.newVulnerabilities c ↔ unmatched reviewId2 reviewId1 f) ∧
  (∀ f, f ∈ Tools.fixedVulnerabilities c ↔ unmatched reviewId1 reviewId2 f) ∧
  Tools.delta c = Z.of_nat (Tools.cmp_count2 c) - Z.of_nat (Tools.cmp_count1 c) ∧
  Tools.cmp_count1 c = length (Tools.reachable_rows db reviewId1) ∧
  Tools.cmp_count2 c = length (Tools.reachable_rows db reviewId2).
Proof.
  intros c unmatched. subst c.
  assert (∀ mine theirs f,
            f ∈ Agent.mapFindingFromDb <$>
                  filter (λ r, Tools.diff_key r
                               ∉ Tools.diff_key <$> Tools.reachable_rows db theirs)
                    (Tools.reachable_rows db mine)
            ↔ unmatched mine theirs f) as Hside.
  { intros mine theirs f. unfold unmatched.
    rewrite list_elem_of_fmap. split.
    - intros (row & -> & [Hnot Hrow]%list_elem_of_filter).
      apply reachable_rows_elem in Hrow as (i & Hrow & Hrev & Hreach).
      exists i, row. split_and!; [done..|].
      intros j other Hother Hrev' Hreach' Hsame. apply Hnot.
      apply list_elem_of_fmap. exists other. split.
      + symmetry. by apply diff_key_inj.
      + apply reachable_rows_elem. by exists j.
    - intros (i & row & Hrow & Hrev & Hreach & -> & Hnone).
      exists row. split; [done|]. apply list_elem_of_filter. split.
      + intros (other & Hkey & Hother)%list_elem_of_fmap.
        apply reachable_rows_elem in Hother as (j & Hother & Hrev' & Hreach').
        apply (Hnone j other); [done..|]. symmetry in Hkey.
        by apply diff_key_inj.
      + apply reachable_rows_elem. by exists i. }
  unfold Tools.compare_reviews.
  cbn [Tools.newVulnerabilities Tools.fixedVulnerabilities Tools.delta
       Tools.cmp_count1 Tools.cmp_count2].
  split_and!; [apply Hside | apply Hside | done..].
Qed.

Lemma filter_matched {A B} `{EqDecision B} (key : A → B) (l l' : list A) :
  l ⊆ l' → filter (λ a, key a ∉ key <$> l') l = [].
Proof.
  induction l as [|a l IH]; intros Hsub; [done|].
  rewrite filter_cons, decide_False.
  - apply IH. set_solver.
  - intros Hnot. apply Hnot, list_elem_of_fmap. exists a. set_solver.
Qed.

(** X11: comparing a review with itself reports nothing new and nothing
    fixed, with delta 0; and comparing two reviews the other way round
    swaps what is new with what is fixed and negates delta. *)
Theorem compare_reviews_self_and_swap db reviewId1 reviewId2 :
  Tools.newVulnerabilities (Tools.compare_reviews db reviewId1 reviewId1) = [] ∧
  Tools.fixedVulnerabilities (Tools.compare_reviews db reviewId1 reviewId1) = [] ∧
  Tools.delta (Tools.compare_reviews db reviewId1 reviewId1) = 0 ∧
  Tools.newVulnerabilities (Tools.compare_reviews db reviewId2 reviewId1)
  = Tools.fixedVulnerabilities (Tools.compare_reviews db reviewId1 reviewId2) ∧
  Tools.fixedVulnerabilities (Tools.compare_reviews db reviewId2 reviewId1)
  = Tools.newVulnerabilities (Tools.compare_reviews db reviewId1 reviewId2) ∧
  Tools.delta (Tools.compare_reviews db reviewId2 reviewId1)
  = - Tools.delta (Tools.compare_reviews db reviewId1 reviewId2).
Proof.
  unfold Tools.compare_reviews.
  cbn [Tools.newVulnerabilities Tools.fixedVulnerabilities Tools.delta].
  split_and!; [| | lia | done | done | lia];
    by rewrite (filter_matched Tools.diff_key).
Qed.

(** ** What is stored is what is read *)

Lemma NoDup_fmap_inj_on {A B} (key : A → B) (l : list A) a b :
  NoDup (key <$> l) → a ∈ l → b ∈ l → key a = key b → a = b.
Proof.
  induction l as [|x l IH]; [by intros _ ?%elem_of_nil|].
  rewrite fmap_cons, NoDup_cons.
  intros [Hx Hl] [->|Ha]%elem_of_cons [->|Hb]%elem_of_cons Hkey.
  - done.
  - destruct Hx. rewrite Hkey. apply list_elem_of_fmap. by exists b.
  - destruct Hx. rewrite <-Hkey. apply list_elem_of_fmap. by exists a.
  - by apply IH.
Qed.

(** The rows of a review right after its findings were stored, when it had
    none before and the ids of the list are distinct. *)
Lemma stored_rows db reviewId fs includeFiltered :
  well_keyed db →
  NoDup (Finding.id <$> fs) →
  (∀ i row, Agent.findings db !! i = Some row →
            FindingRow.review_id row ≠ reviewId) →
  filter (Agent.where_clause reviewId includeFiltered)
    (map_to_list (Agent.insert_findings reviewId fs (Agent.findings db))).*2
  ≡ₚ Agent.finding_row reviewId
     <$> filter (λ f, includeFiltered = true ∨ Finding.isReachable f = true) fs.
Proof.
  intros Hkey Hids Hfresh. apply NoDup_Permutation.
  - apply NoDup_filter, (NoDup_fmap_1 FindingRow.id).
    rewrite <-list_fmap_compose.
    rewrite (Forall_fmap_ext_1 _ fst); [apply NoDup_fst_map_to_list|].
    apply Forall_forall. intros [i row] Hin%elem_of_map_to_list. simpl.
    apply insert_findings_lookup in Hin as [Hold | (f & _ & Hid & ->)];
      [by apply Hkey | done].
  - apply (NoDup_fmap_1 FindingRow.id). rewrite <-list_fmap_compose.
    change (FindingRow.id ∘ Agent.finding_row reviewId) with Finding.id.
    eapply sublist_NoDup; [exact Hids|]. apply fmap_sublist, sublist_filter.
  - intros row. rewrite list_elem_of_filter, !list_elem_of_fmap. split.
    + intros [[Hrev Hreach] ([i r] & -> & Hin%elem_of_map_to_list)].
      simpl in *.
      apply insert_findings_lookup in Hin as [Hold | (f & Hf & Hid & ->)];
        [by apply Hfresh in Hold|].
      exists f. split; [done|]. apply list_elem_of_filter. split; [|done].
      destruct Hreach as [?|Hreach]; [by left|right].
      simpl in Hreach. by destruct (Finding.isReachable f).
    + intros (f & -> & [Hsel Hf]%list_elem_of_filter). split.
      * split; [done|]. destruct Hsel as [?|Hreach]; [by left|right].
        simpl. by rewrite Hreach.
      * destruct (upsert_lookup_in Finding.id (Agent.finding_row reviewId) fs
                    (Agent.findings db) f Hf) as (g & Hg & Hid & Hrow).
        assert (g = f) as -> by (by eapply NoDup_fmap_inj_on).
        exists (Finding.id f, Agent.finding_row reviewId f).
        split; [done|]. by apply elem_of_map_to_list.
Qed.

(** X12: for a review that had no findings yet, storing findings with
    distinct ids makes get_findings return as many findings as were
    stored when the filtered ones are included, and by default as many as
    are reachable, which is the exploitable count of the statistics; and
    when the findings are canonical, what it returns is the stored list,
    or its reachable part, up to order. *)
Theorem stored_findings_are_the_findings_read db reviewId fs synthesis now :
  well_keyed db →
  NoDup (Finding.id <$> fs) →
  (∀ i row, Agent.findings db !! i = Some row →
            FindingRow.review_id row ≠ reviewId) →
  let db' := Agent.store_findings db reviewId fs synthesis now in
  let shown := Agent.get_findings db' reviewId None in
  let all := Agent.get_findings db' reviewId (Some true) in
  Agent.findingsCount all = length fs ∧
  Z.of_nat (Agent.findingsCount shown) = Agent.reachableCount fs ∧
  (∀ stats, Agent.resp_stats shown = Some stats →
            Agent.exploitableFindings stats = Z.of_nat (Agent.findingsCount shown)
            ∧ Agent.rawFindings stats = Synthesis.totalRaw synthesis) ∧
  (Forall canonical fs →
   Agent.resp_findings all ≡ₚ fs
   ∧ Agent.resp_findings shown ≡ₚ filter (λ f, Finding.isReachable f = true) fs).
Proof.
  intros Hkey Hids Hfresh db' shown all.
  assert (∀ includeFiltered,
            Agent.select_findings db' reviewId includeFiltered
            ≡ₚ Agent.finding_row reviewId
               <$> filter (λ f, includeFiltered = true
                                ∨ Finding.isReachable f = true) fs) as Hrows.
  { intros includeFiltered. unfold Agent.select_findings.
    rewrite merge_sort_Permutation. by apply stored_rows. }
  assert (filter (λ f, true = true ∨ Finding.isReachable f = true) fs = fs)
    as Hall.
  { clear. induction fs as [|f fs IH]; [done|].
    rewrite filter_cons, decide_True by (by left). by rewrite IH. }
  assert (filter (λ f, false = true ∨ Finding.isReachable f = true) fs
          = filter (λ f, Finding.isReachable f = true) fs) as Hshown.
  { apply list_filter_iff. intros f. split; [by intros [?|?]|by right]. }
  assert (Z.of_nat (Agent.findingsCount shown) = Agent.reachableCount fs)
    as Hcount.
  { subst shown. unfold Agent.get_findings; cbn [Agent.findingsCount default from_option id].
    by rewrite Hrows, Hshown, length_fmap. }
  split_and!.
  - subst all. unfold Agent.get_findings; cbn [Agent.findingsCount default from_option id].
    by rewrite Hrows, Hall, length_fmap.
  - exact Hcount.
  - intros stats. rewrite Hcount. subst shown db'.
    unfold Agent.get_findings, Agent.store_findings;
      cbn [Agent.resp_stats Agent.reviews].
    rewrite lookup_alter, decide_True by done.
    destruct (Agent.reviews db !! reviewId); [|done].
    by intros [= <-].
  - intros Hcanon.
    assert (∀ l, l ⊆ fs →
              Agent.mapFindingFromDb <$> (Agent.finding_row reviewId <$> l) = l)
      as Hback.
    { intros l Hl. rewrite <-list_fmap_compose.
      rewrite <-(list_fmap_id l) at 2. apply Forall_fmap_ext_1, Forall_forall.
      intros f Hf. simpl.
      destruct (proj1 (Forall_forall _ _) Hcanon f (Hl f Hf))
        as (Hcwe & Howasp & Hreason & [path Hpath] & [sans Hsans]).
      destruct f as [i cat sev ti de [sl el sn] cwe owasp reach [hp dfp sip fpr]].
      simpl in *. subst dfp sip.
      unfold Agent.mapFindingFromDb, Agent.finding_row; simpl.
      rewrite !truthy_str_idemp, !truthy_str_canonical by done.
      by destruct reach, hp. }
    subst all shown. unfold Agent.get_findings; cbn [Agent.resp_findings default from_option id].
    rewrite !Hrows, Hall, Hshown. split.
    + by rewrite Hback.
    + rewrite Hback; [done|]. intros f [_ Hf]%list_elem_of_filter. exact Hf.
Qed.

End store_more.

(** * Further facts about the adapters *)

Section stage_more.
Context `{JsRuntime}.
Implicit Types (x y v : json) (ent : Stages.Entropy) (out items : list json).

(** ** [runAIAnalysis] *)

(** runAIAnalysis returns the response when it is a string, the
    property response of an object when that is a string, and otherwise
    its property text when that is a string; for every other value it
    throws the error for an unexpected format, and a failure of the
    inference call is passed on as it is. *)
Lemma runAIAnalysis_forms (call : result json) :
  (∀ e, call = Throw e → Utils.runAIAnalysis call = Throw e) ∧
  (∀ v s, call = Ok v →
     Utils.runAIAnalysis call = Ok s ↔
     v = JStr s
     ∨ Stages.prop "response" v = Some (JStr s)
     ∨ (∀ r, Stages.prop "response" v ≠ Some (JStr r))
       ∧ Stages.prop "text" v = Some (JStr s)) ∧
  (∀ v e, call = Ok v → Utils.runAIAnalysis call = Throw e →
          e = Error "Unexpected AI response format").
Proof.
  split_and!.
  - by intros e ->.
  - intros v s ->. unfold Utils.runAIAnalysis, Stages.prop.
    destruct v as [| | | |items|fs]; try by (split; [done|intros [?|[?|[_ ?]]]]).
    + split; [intros [= ->]; by left|]. by intros [[= ->]|[?|[_ ?]]].
    + destruct (Stages.field "response" fs) as [[| | |r| |]|];
        destruct (Stages.field "text" fs) as [[| | |t| |]|];
        (split;
         [ intros [= ->]; (by right; left) || (right; right; by split)
         | intros [?|[?|[Hno ?]]]; try done; try congruence;
           by destruct (Hno r) ]).
  - intros v e ->. unfold Utils.runAIAnalysis.
    destruct v as [| | | |items|fs]; try by intros [= <-].
    destruct (Stages.field "response" fs) as [[| | |r| |]|];
      destruct (Stages.field "text" fs) as [[| | |t| |]|];
      by intros [= <-].
Qed.

(** ** A failing inference call *)

Lemma nothing_to_inject_test (triage : Triage.t) :
  negb (Stages.hasInjectionRiskAreas triage) && negb (Stages.hasSinks triage)
  && bool_decide (length (Triage.entryPoints triage) = 0%nat) = true
  ↔ nothing_to_inject triage.
Proof.
  unfold nothing_to_inject, Stages.hasInjectionRiskAreas, Stages.hasSinks.
  rewrite !andb_true_iff, !negb_true_iff, bool_decide_eq_true,
    bool_decide_eq_false.
  assert (∀ l, existsb (λ area, bool_decide (Triage.category area
                                             ∈ Stages.injection_categories)) l
               = false
               ↔ Forall (λ area, Triage.category area
                                 ∉ Stages.injection_categories) l) as Hareas.
  { induction l as [|a l IH]; simpl.
    - split; [constructor|done].
    - rewrite orb_false_iff, bool_decide_eq_false, IH, Forall_cons. done. }
  rewrite Hareas.
  assert (∀ A (l : list A), length l = 0%nat ↔ l = []) as Hnil
    by (intros A [|a l]; done).
  rewrite Hnil.
  assert (¬ (0 < length (Triage.sinks (Triage.dataFlowMap triage)))%nat
          ↔ Triage.sinks (Triage.dataFlowMap triage) = []) as ->; [|tauto].
  rewrite <-Hnil. lia.
Qed.

(** X13: the try block of the adapters does not cover the inference call:
    when the call fails, or returns nothing that runAIAnalysis accepts, the
    dependency and the secrets adapter fail with that error and log
    nothing.  The injection adapter fails with it too, unless the triage
    found no injection risk area, no sink and no entry point: then it
    returns the empty list without looking at the inference call. *)
Theorem inference_failure_escapes_the_adapters triage call e ent :
  Utils.runAIAnalysis call = Throw e →
  Stages.runDependencyStage (Utils.runAIAnalysis call) ent = (Throw e, []) ∧
  Stages.runSecretsStage (Utils.runAIAnalysis call) ent = (Throw e, []) ∧
  (¬ nothing_to_inject triage →
   Stages.runInjectionStage triage (Utils.runAIAnalysis call) ent
   = (Throw e, [])) ∧
  (nothing_to_inject triage →
   ∀ ai, Stages.runInjectionStage triage ai ent = (Ok [], [])).
Proof.
  intros ->. split_and!; [done | done | |].
  - intros Hsome. unfold Stages.runInjectionStage.
    destruct (_ && _) eqn:Hskip; [|done].
    by apply nothing_to_inject_test in Hskip.
  - intros Hnone%nothing_to_inject_test ai. unfold Stages.runInjectionStage.
    by rewrite Hnone.
Qed.

(** ** One finding for each item *)

Lemma js_map_ok f i items :
  Forall (λ x, ∀ k, ∃ y, f k x = Ok y) items →
  ∃ out, Stages.js_map f i items = Ok out.
Proof.
  revert i. induction items as [|x items IH]; intros i Hall; simpl.
  - by exists [].
  - apply Forall_cons in Hall as [Hx Hall].
    destruct (Hx i) as [y ->]. destruct (IH (S i) Hall) as [ys ->].
    by exists (y :: ys).
Qed.

Lemma js_map_null f i items e :
  (∀ k x, x ≠ JNull → ∃ y, f k x = Ok y) →
  (∀ k, f k JNull = Throw e) →
  JNull ∈ items →
  Stages.js_map f i items = Throw e.
Proof.
  intros Hok Hnull. revert i.
  induction items as [|x items IH]; intros i Hin; [by apply elem_of_nil in Hin|].
  apply elem_of_cons in Hin as [<-|Hin]; simpl; [by rewrite Hnull|].
  destruct x; [by rewrite Hnull|..];
    (edestruct (Hok i) as [y ->]; [|by rewrite IH]); discriminate.
Qed.

(** The three callbacks on an item that is not [null]. *)
Lemma finding_callbacks_ok ent k x :
  x ≠ JNull →
  (∃ y, Stages.dependency_finding ent k x = Ok y) ∧
  (∃ y, Stages.secrets_finding ent k x = Ok y) ∧
  (∃ y, Stages.injection_finding ent k x = Ok y).
Proof.
  unfold Stages.dependency_finding, Stages.secrets_finding,
    Stages.injection_finding.
  intros Hx. destruct x; [done|..]; (split_and!; by eexists).
Qed.

Lemma finding_callbacks_keep ent k x y key :
  key ≠ "id" → key ≠ "category" →
  Stages.dependency_finding ent k x = Ok y
  ∨ Stages.secrets_finding ent k x = Ok y
  ∨ Stages.injection_finding ent k x = Ok y →
  Stages.prop key y = Stages.field key (Stages.spread x).
Proof.
  intros Hid Hcat.
  unfold Stages.dependency_finding, Stages.secrets_finding,
    Stages.injection_finding.
  destruct (Stages.get x "id") as [i|e]; [|by intros [?|[?|?]]].
  destruct (Stages.get x "category") as [c|e];
    intros [Hy|[Hy|Hy]]; try done; injection Hy as <-;
    simpl; rewrite field_app; simpl;
    rewrite !decide_False by done; done.
Qed.

Lemma parse_ok_log response v :
  (Stages.parseJsonResponse response).1 = Ok v →
  Stages.parseJsonResponse response = (Ok v, []).
Proof.
  unfold Stages.parseJsonResponse. cbv zeta.
  destruct (JSON_parse _); simpl; [by intros [= ->]|done].
Qed.

Lemma js_map_keeps f items :
  Forall (λ x, ∀ k, ∃ y, f k x = Ok y) items →
  (∀ k x y key, f k x = Ok y → key ≠ "id" → key ≠ "category" →
                Stages.prop key y = Stages.field key (Stages.spread x)) →
  ∃ out, Stages.js_map f 0 items = Ok out
         ∧ length out = length items
         ∧ ∀ k x, items !! k = Some x →
                  ∃ y, out !! k = Some y
                       ∧ ∀ key, key ≠ "id" → key ≠ "category" →
                                Stages.prop key y
                                = Stages.field key (Stages.spread x).
Proof.
  intros Hall Hkeep. destruct (js_map_ok f 0 items Hall) as [out Hout].
  exists out. split; [done|].
  destruct (js_map_lookup _ _ _ _ Hout) as [Hlen Hitems].
  split; [done|]. intros k x Hx.
  destruct (out !! k) as [y|] eqn:Hy.
  - exists y. split; [done|].
    destruct (Hitems k y Hy) as (x' & Hx' & Hfy).
    rewrite Hx in Hx'. injection Hx' as <-. intros key. by eapply Hkeep.
  - apply lookup_ge_None in Hy. apply lookup_lt_Some in Hx. lia.
Qed.

(** X14: when the content of the response is an array with no null item,
    the dependency and the secrets adapter, and the injection adapter
    when the triage gave it something to look at, return one finding for
    each item, in the order of the items, and change no property of an
    item other than id and category; none of them logs anything. *)
Theorem adapters_return_one_finding_per_item triage response ent items :
  (Stages.parseJsonResponse response).1 = Ok (JArr items) →
  Forall (λ x, x ≠ JNull) items →
  keeps_items items (Stages.runDependencyStage (Ok response) ent) ∧
  keeps_items items (Stages.runSecretsStage (Ok response) ent) ∧
  (¬ nothing_to_inject triage →
   keeps_items items (Stages.runInjectionStage triage (Ok response) ent)).
Proof.
  intros Hparse%parse_ok_log Hitems.
  assert (∀ f : nat → json → result json,
            (∀ k x, x ≠ JNull → ∃ y, f k x = Ok y) →
            Forall (λ x, ∀ k, ∃ y, f k x = Ok y) items) as Hall.
  { intros f Hf. eapply Forall_impl; [exact Hitems|]. intros x Hx k. by apply Hf. }
  unfold keeps_items, Stages.runDependencyStage, Stages.runSecretsStage,
    Stages.runInjectionStage.
  rewrite Hparse. split_and!.
  - destruct (js_map_keeps (Stages.dependency_finding ent) items)
      as (out & -> & Hout).
    + apply Hall. intros k x Hx. by apply finding_callbacks_ok.
    + intros k x y key Hy Hid Hcat. apply (finding_callbacks_keep ent k); auto.
    + by exists out.
  - destruct (js_map_keeps (Stages.secrets_finding ent) items)
      as (out & -> & Hout).
    + apply Hall. intros k x Hx. by apply finding_callbacks_ok.
    + intros k x y key Hy Hid Hcat. apply (finding_callbacks_keep ent k); auto.
    + by exists out.
  - intros Hsome. destruct (_ && _) eqn:Hskip;
      [by apply nothing_to_inject_test in Hskip|].
    destruct (js_map_keeps (Stages.injection_finding ent) items)
      as (out & -> & Hout).
    + apply Hall. intros k x Hx. by apply finding_callbacks_ok.
    + intros k x y key Hy Hid Hcat. apply (finding_callbacks_keep ent k); auto.
    + by exists out.
Qed.

(** X15: one null item costs every finding of the response: the dependency
    adapter fails with a TypeError, and the secrets and the injection
    adapter log a parse error and return the empty list, whatever the
    other items are. *)
Theorem a_null_item_discards_every_finding triage response ent items :
  (Stages.parseJsonResponse response).1 = Ok (JArr items) →
  JNull ∈ items →
  Stages.runDependencyStage (Ok response) ent
  = (Throw (TypeError "Cannot read properties of null"), []) ∧
  Stages.runSecretsStage (Ok response) ent
  = (Ok [], ["Secrets stage parse error:"]) ∧
  (¬ nothing_to_inject triage →
   Stages.runInjectionStage triage (Ok response) ent
   = (Ok [], ["Injection stage parse error:"])).
Proof.
  intros Hparse%parse_ok_log Hnull.
  unfold Stages.runDependencyStage, Stages.runSecretsStage,
    Stages.runInjectionStage.
  rewrite Hparse. split_and!.
  - rewrite (js_map_null _ _ _ (TypeError "Cannot read properties of null"));
      [done | | done | done].
    intros k x Hx. by apply finding_callbacks_ok.
  - rewrite (js_map_null _ _ _ (TypeError "Cannot read properties of null"));
      [done | | done | done].
    intros k x Hx. by apply finding_callbacks_ok.
  - intros Hsome. destruct (_ && _) eqn:Hskip;
      [by apply nothing_to_inject_test in Hskip|].
    rewrite (js_map_null _ _ _ (TypeError "Cannot read properties of null"));
      [done | | done | done].
    intros k x Hx. by apply finding_callbacks_ok.
Qed.

(** ** Generated ids across the adapters *)

(** X16: the ids that the adapters generate never coincide across tasks or
    across indices, whatever the clock and the random source give in each
    call: two generated ids are equal only for the same task prefix and
    the same index. *)
Theorem generated_ids_are_scoped_by_task_and_index
    ent1 ent2 (task1 task2 : string) (k1 k2 : nat) :
  Stages.dashless task1 → Stages.dashless task2 →
  Stages.freshId ent1 task1 k1 = Stages.freshId ent2 task2 k2 →
  task1 = task2 ∧ k1 = k2.
Proof.
  intros Ht1 Ht2. rewrite !freshId_shape. intros Heq.
  assert (task1 = task2) as <- by (by eapply dashless_word_inj).
  split; [done|].
  apply (inj (String.app task1)) in Heq.
  rewrite !string_app_cons, !string_app_nil in Heq. injection Heq as Heq.
  apply dashless_word_inj in Heq; [|apply dashless_pretty..].
  by apply (inj (@pretty nat _)) in Heq.
Qed.

End stage_more.

(** * Further facts about the pipeline *)

Section run_more.
Context (env : Workflow.Env) (reviewId : string).
Implicit Types (st : Workflow.St) (fs : list Finding.t) (syn : Synthesis.t).
Implicit Types (db : Agent.DB).

(** Unfold the run and split on every outcome it consults. *)
Ltac run_settle :=
  repeat (first [rewrite step_silent | rewrite step_calls]; simpl).

Ltac run_open :=
  unfold Workflow.run, Workflow.analyse, Workflow.resume, Workflow.promise_all4,
    Workflow.waitForEvent, Workflow.step_do, Workflow.updateReviewStatus,
    Workflow.storeFindings, Workflow.storeRemediations, Workflow.emit,
    Workflow.await, Workflow.agent, mbind, mret, Workflow.M_bind, Workflow.M_ret;
  simpl; run_settle.

Ltac run_outcomes :=
  repeat match goal with
         | |- context [Workflow.triage_outcome env] =>
             destruct (Workflow.triage_outcome env) eqn:?; simpl; run_settle
         | |- context [Workflow.dependency_outcome env ?a] =>
             destruct (Workflow.dependency_outcome env a) eqn:?; simpl;
             run_settle
         | |- context [Workflow.auth_outcome env ?a] =>
             destruct (Workflow.auth_outcome env a) eqn:?; simpl; run_settle
         | |- context [Workflow.injection_outcome env ?a] =>
             destruct (Workflow.injection_outcome env a) eqn:?; simpl;
             run_settle
         | |- context [Workflow.secrets_outcome env] =>
             destruct (Workflow.secrets_outcome env) eqn:?; simpl; run_settle
         | |- context [Workflow.reachability_outcome env ?a ?b] =>
             destruct (Workflow.reachability_outcome env a b) eqn:?; simpl;
             run_settle
         | |- context [Workflow.synthesis_outcome env ?a ?b] =>
             destruct (Workflow.synthesis_outcome env a b) eqn:?; simpl;
             run_settle
         | |- context [Workflow.approval_outcome env] =>
             destruct (Workflow.approval_outcome env) as [[[] []]|] eqn:?; simpl;
             run_settle
         | |- context [Workflow.remediation_outcome env ?a] =>
             destruct (Workflow.remediation_outcome env a) eqn:?; simpl;
             run_settle
         | |- context [Workflow.failed_attempts env "remediation"] =>
             destruct (Workflow.failed_attempts env "remediation")
               as [|[|[|?]]]; simpl
         end.

(** An event is not in a trace that is given explicitly. *)
Ltac not_entered :=
  let Hin := fresh "Hin" in
  unfold invoked; simpl; intros Hin;
  repeat (apply elem_of_cons in Hin as [Hin|Hin]; [discriminate Hin|]);
  by apply elem_of_nil in Hin.

(** ** The order of the steps *)

(** X17: the steps of a run are entered in the order of the pipeline, each
    one once: the names of the steps entered are an initial part of the
    step list with remediation or of the step list without, and the run
    returns exactly when it went through one of the two lists to its end.
    The remediation task is called when its step is entered and only then,
    once and once more for each failed attempt that the platform repeats,
    three times at most, and every time with the same findings. *)
Theorem run_enters_the_steps_in_order db :
  let out := Workflow.run env reviewId (Workflow.mkSt db []) in
  let names := step_names (Workflow.trace out.2) in
  (names `prefix_of` steps_with_remediation
   ∨ names `prefix_of` steps_without_remediation) ∧
  ((∃ r, out.1 = Ok r) ↔
   names = steps_with_remediation ∨ names = steps_without_remediation) ∧
  (∃ n approvedFindings,
     remediation_calls (Workflow.trace out.2) = replicate n approvedFindings
     ∧ (n ≤ 3)%nat
     ∧ (invoked "remediation" (Workflow.trace out.2) →
        n = S (min (Workflow.failed_attempts env "remediation") 2))
     ∧ (¬ invoked "remediation" (Workflow.trace out.2) → n = 0%nat)).
Proof.
  intros out names. subst names out. run_open.
  unfold steps_with_remediation, steps_without_remediation, steps_to_approval.
  run_outcomes.
  all: split_and!;
    [ first [left; by eexists | right; by eexists]
    | split;
      [ intros [r Hr]; first [discriminate Hr | by left | by right]
      | intros [Hl|Hl]; first [discriminate Hl | by eexists] ]
    | first
        [ exists 0%nat, []; split_and!; [reflexivity | lia | | done];
          intros Hin; exfalso; revert Hin; not_entered
        | (exists 1%nat + exists 2%nat + exists 3%nat);
          eexists; split_and!; [reflexivity | lia | done |];
          intros Hnot; exfalso; apply Hnot, list_elem_of_lookup;
          by exists 13%nat ] ].
Qed.

(** ** The rows that a run writes *)

Lemma confined_refl db : confined reviewId db db.
Proof. unfold confined. split_and!; auto. Qed.

Lemma confined_update_status db0 db status stage now :
  confined reviewId db0 db →
  confined reviewId db0 (Agent.update_status db reviewId status stage now).
Proof.
  intros (Hreviews & Hfindings & Hrems). split_and!; [|done..].
  intros other Hother. unfold Agent.update_status; cbn [Agent.reviews].
  rewrite lookup_alter_ne by done. by apply Hreviews.
Qed.

Lemma confined_store_findings db0 db fs syn now :
  confined reviewId db0 db →
  confined reviewId db0 (Agent.store_findings db reviewId fs syn now).
Proof.
  intros (Hreviews & Hfindings & Hrems). split_and!; [| |done].
  - intros other Hother. unfold Agent.store_findings; cbn [Agent.reviews].
    rewrite lookup_alter_ne by done. by apply Hreviews.
  - intros i row Hrow. unfold Agent.store_findings in Hrow.
    cbn [Agent.findings] in Hrow.
    apply insert_findings_lookup in Hrow as [Hold | (f & _ & _ & ->)];
      [by apply Hfindings | by right].
Qed.

Lemma upsert_lookup_Some {A B} (key : A → string) (val : A → B)
    (l : list A) (m : gmap string B) k v :
  foldl (λ m a, <[key a := val a]> m) m l !! k = Some v →
  m !! k = Some v ∨ ∃ a, a ∈ l ∧ v = val a.
Proof.
  induction l as [|c l IH] using rev_ind; [by left|].
  rewrite foldl_snoc. intros Hv.
  apply lookup_insert_Some in Hv as [[_ <-] | [_ Hv]].
  - right. exists c. split; [|done]. apply elem_of_app. right.
    by apply list_elem_of_singleton.
  - destruct (IH Hv) as [?|(a & Ha & ->)]; [by left|].
    right. exists a. split; [|done]. apply elem_of_app. by left.
Qed.

Lemma confined_store_remediations db0 db rs :
  confined reviewId db0 db →
  confined reviewId db0 (Agent.store_remediations db reviewId rs).
Proof.
  intros (Hreviews & Hfindings & Hrems). split_and!; [done | done |].
  intros i row Hrow. unfold Agent.store_remediations in Hrow.
  cbn [Agent.remediations] in Hrow.
  apply upsert_lookup_Some in Hrow as [Hold | (r & _ & ->)];
    [by apply Hrems | by right].
Qed.

(** X19: a run writes within its review.  Whatever the stages return and
    however the run ends, the rows of all other reviews are as they were,
    and every finding and every remediation that is new or changed
    carries the review id of the run; the findings table changes only in
    a run that entered the store-findings step, and the remediations table
    only in a run that entered the store-remediations step. *)
Theorem run_writes_within_its_review db :
  let out := Workflow.run env reviewId (Workflow.mkSt db []) in
  confined reviewId db (Workflow.db out.2) ∧
  (¬ invoked "store-findings" (Workflow.trace out.2) →
   Agent.findings (Workflow.db out.2) = Agent.findings db) ∧
  (¬ invoked "store-remediations" (Workflow.trace out.2) →
   Agent.remediations (Workflow.db out.2) = Agent.remediations db).
Proof.
  intros out. subst out. run_open. run_outcomes.
  all: split_and!;
    [ repeat first [ apply confined_refl
                   | apply confined_update_status
                   | apply confined_store_findings
                   | apply confined_store_remediations ]
    | intros Hnot;
      first [ done
            | exfalso; apply Hnot, list_elem_of_lookup; by exists 9%nat ]
    | intros Hnot;
      first [ done
            | exfalso; apply Hnot, list_elem_of_lookup;
              first [by exists 15%nat | by exists 16%nat | by exists 17%nat] ] ].
Qed.

(** ** Where the remediations of a run are *)

(** Every remediation that a run returned is a row of the store that the
    callbacks address, under its id and with the review id of the run. *)
Lemma returned_remediations_stored db r st' :
  Workflow.run env reviewId (Workflow.mkSt db []) = (Ok r, st') →
  Workflow.status r = "completed" ∧
  ∀ rem, rem ∈ Workflow.remediations r →
    ∃ rem', rem' ∈ Workflow.remediations r
            ∧ Remediation.id rem' = Remediation.id rem
            ∧ Agent.remediations (Workflow.db st') !! Remediation.id rem
              = Some (Agent.remediation_row reviewId rem').
Proof.
  run_open. run_outcomes.
  all: intros Hrun; try discriminate Hrun; injection Hrun as <- <-.
  all: cbn [Workflow.status Workflow.synthesis Workflow.remediations
            Workflow.db].
  all: split; [done|].
  all: try by intros rem Hrem%elem_of_nil.
  all: intros rem Hrem;
    by apply (upsert_lookup_in Remediation.id (Agent.remediation_row reviewId)).
Qed.

End run_more.

(** * Further facts about the service *)

Section service_more.
Implicit Types (w : System.World) (o session : Objects.Id).
Implicit Types (env : Workflow.Env).

(** X18: the status of a review never tells how far its run got.  The run
    of a review that [submit_review] created reaches the object of the
    name [rev] and no other: every other object, and with it every object
    that serves the tools, has after the run the store it had before, so
    that [check_status], [get_findings] and [get_remediation] answer there
    as they did before the run, however it ended; and where the object of
    the name [rev] holds no row for the review, its reviews table is as it
    was too. *)
Theorem run_never_reaches_the_submitted_review
    env w session timestamp random :
  Objects.serves_mcp session →
  let reviewId := Stages.generateId "rev" timestamp random in
  let out := System.run env reviewId w in
  System.world out session = w session ∧
  (∀ o, o ≠ Objects.FromName "rev" → System.world out o = w o) ∧
  (∀ i includeFiltered findingId,
     Tools.check_status (System.world out session) i
     = Tools.check_status (w session) i
     ∧ Agent.get_findings (System.world out session) i includeFiltered
       = Agent.get_findings (w session) i includeFiltered
     ∧ Tools.get_remediation (System.world out session) i findingId
       = Tools.get_remediation (w session) i findingId) ∧
  (Agent.reviews (w (Objects.FromName "rev")) !! reviewId = None →
   Agent.reviews (System.world out (Objects.FromName "rev"))
   = Agent.reviews (w (Objects.FromName "rev"))).
Proof.
  intros Hserves%serving_is_not_callback reviewId out.
  assert (∀ o, o ≠ Objects.FromName "rev" → System.world out o = w o) as Hframe.
  { intros o Ho. unfold out, System.run; cbn [System.world].
    unfold reviewId. rewrite callback_of_generated. by rewrite put_other. }
  split_and!; [by apply Hframe | exact Hframe | |].
  - intros i includeFiltered findingId. by rewrite (Hframe session Hserves).
  - intros Hnone. unfold out, System.run; cbn [System.world].
    unfold reviewId. rewrite callback_of_generated, put_same.
    by apply run_without_the_row.
Qed.

Lemma no_findings_to_return db reviewId includeFiltered :
  Agent.findings db = ∅ →
  Agent.resp_findings (Agent.get_findings db reviewId includeFiltered) = []
  ∧ Agent.findingsCount (Agent.get_findings db reviewId includeFiltered) = 0%nat.
Proof.
  intros Hnone. unfold Agent.get_findings, Agent.select_findings.
  cbn [Agent.resp_findings Agent.findingsCount].
  rewrite Hnone, map_to_list_empty. done.
Qed.

Lemma no_remediations_to_return db reviewId findingId :
  Agent.remediations db = ∅ →
  Tools.rem_remediations (Tools.get_remediation db reviewId findingId) = [].
Proof.
  intros Hnone. unfold Tools.get_remediation. cbn [Tools.rem_remediations].
  rewrite Hnone, map_to_list_empty. done.
Qed.

(** X20: what a run stores cannot be read through the tools.  In any world
    the service can be in, after a run that returned, every remediation
    that the run returned is a row of the object of the name [rev], under
    its id and filed under the review of the run; and in every object that
    serves the tools [get_findings] returns no finding and
    [get_remediation] no remediation, for any review, and [check_status]
    reports a review, if at all, as [submit_review] left it. *)
Theorem a_returned_run_cannot_be_read_through_the_tools
    env w session timestamp random r :
  System.reachable w →
  Objects.serves_mcp session →
  let reviewId := Stages.generateId "rev" timestamp random in
  let out := System.run env reviewId w in
  System.outcome out = Ok r →
  (∀ rem, rem ∈ Workflow.remediations r →
     ∃ rem', rem' ∈ Workflow.remediations r
             ∧ Remediation.id rem' = Remediation.id rem
             ∧ Agent.remediations (System.world out (Objects.FromName "rev"))
                 !! Remediation.id rem
               = Some (Agent.remediation_row reviewId rem')) ∧
  (∀ i includeFiltered findingId,
     Agent.resp_findings
       (Agent.get_findings (System.world out session) i includeFiltered) = []
     ∧ Tools.rem_remediations
         (Tools.get_remediation (System.world out session) i findingId) = []
     ∧ (Tools.check_status (System.world out session) i = None
        ∨ Tools.check_status (System.world out session) i
          = Some (as_submitted i))).
Proof.
  intros Hreach Hserves reviewId out Hout.
  assert (System.reachable (System.world out)) as Hafter
    by apply System.reach_run, Hreach.
  destruct (reachable_worlds _ Hafter) as [_ Hworld].
  destruct (Hworld session) as [Hrows Hempty].
  destruct (Hempty (serving_is_not_callback _ Hserves)) as [Hfindings Hrems].
  split.
  - revert Hout. unfold out, System.run.
    cbn [System.world System.outcome].
    unfold reviewId. rewrite callback_of_generated, put_same. intros Hout.
    eapply returned_remediations_stored.
    apply injective_projections; [exact Hout | reflexivity].
  - intros i includeFiltered findingId. split_and!.
    + by apply no_findings_to_return.
    + by apply no_remediations_to_return.
    + apply Hrows.
Qed.

End service_more.

(** * The further facts at the sample data *)

Section more_examples.

Lemma sample_db0_well_keyed : well_keyed Sample.db0.
Proof.
  intros i row Hrow.
  change (Agent.findings Sample.db0) with (∅ : gmap string FindingRow.t) in Hrow.
  by rewrite lookup_empty in Hrow.
Qed.

Lemma sample_ids_distinct : NoDup (Finding.id <$> Sample.findings).
Proof.
  unfold Sample.findings. rewrite !fmap_cons, fmap_nil. simpl.
  repeat (apply NoDup_cons; split;
          [rewrite ?elem_of_cons, elem_of_nil; intros Hin;
           repeat destruct Hin as [Hin|Hin]; done|]).
  apply NoDup_nil_2.
Qed.

Lemma sample_db0_no_findings i row :
  Agent.findings Sample.db0 !! i = Some row → FindingRow.review_id row ≠ "rev-1".
Proof.
  intros Hrow.
  change (Agent.findings Sample.db0) with (∅ : gmap string FindingRow.t) in Hrow.
  by rewrite lookup_empty in Hrow.
Qed.

Lemma sample_findings_canonical : Forall canonical Sample.findings.
Proof.
  unfold Sample.findings.
  repeat (apply Forall_cons; split;
          [unfold canonical; simpl; split_and!; (discriminate || by eexists)|]).
  constructor.
Qed.

(** Findings stored for the review [rev-2], which is not in the sample
    store: the review stays unknown and the finding [f1] is filed under
    it. *)
Lemma callbacks_for_an_unknown_review_witness :
  Tools.check_status
    (Agent.store_findings Sample.db0 "rev-2" Sample.findings Sample.synthesis 20)
    "rev-2" = None
  ∧ ∃ row, Agent.findings
             (Agent.store_findings Sample.db0 "rev-2" Sample.findings
                Sample.synthesis 20) !! "f1" = Some row
           ∧ FindingRow.review_id row = "rev-2".
Proof.
  destruct (callbacks_for_an_unknown_review Sample.db0 "rev-2"
              ltac:(vm_compute; reflexivity)) as [_ Hstore].
  destruct (Hstore Sample.findings Sample.synthesis 20 None)
    as (_ & Hrows & Hstatus & _).
  split; [exact Hstatus|].
  apply (Hrows Sample.f1). apply list_elem_of_lookup. by exists 0%nat.
Defined.

(** The sample finding [f1] is read back as it was stored. *)
Lemma canonical_finding_round_trip_witness :
  Agent.mapFindingFromDb (Agent.finding_row "rev-1" Sample.f1) = Sample.f1.
Proof.
  apply canonical_finding_round_trip.
  unfold canonical; simpl; split_and!; (discriminate || by eexists).
Defined.

(** The findings read from the sample store have distinct ids. *)
Lemma finding_ids_are_primary_keys_witness :
  NoDup (Finding.id
         <$> Agent.resp_findings (Agent.get_findings Sample.db1 "rev-1" (Some true))).
Proof.
  destruct (finding_ids_are_primary_keys Sample.db0 sample_db0_well_keyed)
    as (Hstore & _).
  destruct (finding_ids_are_primary_keys Sample.db1
              (Hstore "rev-1" Sample.findings Sample.synthesis 20))
    as (_ & _ & _ & _ & _ & Hread).
  apply (Hread "rev-1" (Some true)).
Defined.

(** The four sample findings are what get_findings returns for the sample
    review, up to order, and three of them by default. *)
Lemma stored_findings_are_the_findings_read_witness :
  Agent.resp_findings (Agent.get_findings Sample.db1 "rev-1" (Some true))
  ≡ₚ Sample.findings
  ∧ Agent.findingsCount (Agent.get_findings Sample.db1 "rev-1" None) = 3%nat.
Proof.
  destruct (stored_findings_are_the_findings_read Sample.db0 "rev-1"
              Sample.findings Sample.synthesis 20 sample_db0_well_keyed
              sample_ids_distinct sample_db0_no_findings)
    as (_ & Hcount & _ & Hread).
  split; [apply (Hread sample_findings_canonical)|].
  apply Nat2Z.inj. etransitivity; [exact Hcount|]. vm_compute. reflexivity.
Defined.

(** An inference call that answers [null] makes the secrets adapter fail. *)
Lemma inference_failure_escapes_the_adapters_witness :
  @Stages.runSecretsStage Sample.runtime (Utils.runAIAnalysis (Ok JNull))
    Sample.entropy
  = (Throw (Error "Unexpected AI response format"), []).
Proof.
  destruct (@inference_failure_escapes_the_adapters Sample.runtime
              Sample.triage (Ok JNull) (Error "Unexpected AI response format")
              Sample.entropy eq_refl) as (_ & Hsecrets & _).
  exact Hsecrets.
Defined.

(** The response with two findings gives two findings. *)
Lemma adapters_return_one_finding_per_item_witness :
  keeps_items
    [JObj [("id", JStr "x1"); ("category", JStr "auth")];
     JObj [("title", JStr "t")]]
    (@Stages.runDependencyStage Sample.runtime (Ok Sample.labelled)
       Sample.entropy).
Proof.
  assert (Forall (λ x, x ≠ JNull)
            [JObj [("id", JStr "x1"); ("category", JStr "auth")];
             JObj [("title", JStr "t")]]) as Hitems.
  { repeat (apply Forall_cons; split; [discriminate|]). constructor. }
  destruct (@adapters_return_one_finding_per_item Sample.runtime Sample.triage
              Sample.labelled Sample.entropy _ ltac:(vm_compute; reflexivity)
              Hitems) as (Hdependency & _).
  exact Hdependency.
Defined.

(** The response with a finding and [null] gives no finding. *)
Lemma a_null_item_discards_every_finding_witness :
  @Stages.runSecretsStage Mixed.runtime (Ok Mixed.response) Sample.entropy
  = (Ok [], ["Secrets stage parse error:"]).
Proof.
  assert (JNull ∈ Mixed.items) as Hnull.
  { apply list_elem_of_lookup. by exists 1%nat. }
  destruct (@a_null_item_discards_every_finding Mixed.runtime Sample.triage
              Mixed.response Sample.entropy Mixed.items
              ltac:(vm_compute; reflexivity) Hnull) as (_ & Hsecrets & _).
  exact Hsecrets.
Defined.

Lemma generated_ids_are_scoped_by_task_and_index_witness :
  Stages.dashless "dep" ∧ "dep" = "dep" ∧ 0%nat = 0%nat.
Proof.
  assert (Stages.dashless "dep") as Hdep by (simpl; split_and!; done).
  split; [exact Hdep|].
  exact (generated_ids_are_scoped_by_task_and_index Sample.entropy
           Sample.entropy "dep" "dep" 0 0 Hdep Hdep eq_refl).
Defined.

Lemma live_world_reachable : System.reachable Live.world.
Proof.
  exact (System.reach_submit System.start Live.session "u1" "code" None
           "mb3k2x1a" "q9z4ff" 10 11 System.reach_start live_session).
Qed.

(** After the approving run of the review submitted through the shared
    object, which goes through all its steps, [check_status] reports the
    review as [submit_review] left it. *)
Lemma run_never_reaches_the_submitted_review_witness :
  let out :=
    System.run (Live.env (Ok []) (Some Sample.approval)) Live.reviewId
      Live.world in
  step_names (System.steps out) = steps_with_remediation
  ∧ Tools.check_status (System.world out Live.session) Live.reviewId
    = Some (as_submitted Live.reviewId).
Proof.
  destruct (run_never_reaches_the_submitted_review
              (Live.env (Ok []) (Some Sample.approval)) Live.world Live.session
              "mb3k2x1a" "q9z4ff" live_session) as (_ & _ & Htools & _).
  destruct (Htools Live.reviewId None None) as (Hstatus & _).
  split; [by vm_compute|].
  etransitivity; [exact Hstatus|]. by vm_compute.
Defined.

(** After that run, which returned one remediation, [get_findings] returns
    nothing for the review in the shared object, and the remediation is a
    row of the object of the name [rev]. *)
Lemma a_returned_run_cannot_be_read_through_the_tools_witness :
  let out :=
    System.run (Live.env (Ok []) (Some Sample.approval)) Live.reviewId
      Live.world in
  Agent.resp_findings
    (Agent.get_findings (System.world out Live.session) Live.reviewId
       (Some true)) = []
  ∧ is_Some (Agent.remediations (System.world out (Objects.FromName "rev"))
               !! "rem-f1").
Proof.
  destruct (a_returned_run_cannot_be_read_through_the_tools
              (Live.env (Ok []) (Some Sample.approval)) Live.world Live.session
              "mb3k2x1a" "q9z4ff"
              (Workflow.mkResult "completed" Sample.synthesis4
                 (Spec.runRemediationStage Sample.generate Live.reviewId
                    [Sample.f1]))
              live_world_reachable live_session
              ltac:(vm_compute; reflexivity)) as [Hstored Htools].
  split.
  - destruct (Htools Live.reviewId (Some true) None) as (Hnone & _).
    exact Hnone.
  - assert (∃ rem, Spec.runRemediationStage Sample.generate Live.reviewId
                     [Sample.f1] = [rem]
                   ∧ Remediation.id rem = "rem-f1") as (rem & Hrems & Hid)
      by (eexists; split; reflexivity).
    destruct (Hstored rem) as (rem' & _ & _ & Hrow).
    + cbn [Workflow.remediations]. rewrite Hrems.
      apply list_elem_of_lookup. by exists 0%nat.
    + rewrite Hid in Hrow. by eexists.
Defined.

End more_examples.
